(** * Gesture-Particle-Morph: hand-gesture classifier, debouncer,
      animation-frame loop, app state, target-field generators, particle
      morph step and balloons.

    Shallow embedding of [types.ts], [App.tsx],
    [components/HandManager.tsx], [components/Experience.tsx] and
    [utils/particleUtils.ts].

    Numbers.  The landmark coordinates and the thresholds of the classifier
    are the doubles of the program: [float], with the rounded operations of
    IEEE 754 binary64, a decimal literal standing for the nearest double as
    it does in JavaScript.  The particle fields (positions, colours, the
    balloons) are idealised as real numbers of [R]: what is proved of them
    is stated so that rounding does not decide it (closed bounds, the
    update rule itself), and where rounding does decide, the assignment is
    given a second time on machine numbers ([approachStored]).  Integers
    that the code only counts or indexes with are [nat].  Whatever the
    browser supplies (the 2D canvas context and its raster, [Math.random],
    the landmark detector, the frame clock) is an input of the embedded
    functions. *)

From Stdlib Require Import Reals Lra Lia ZArith String Floats.
From stdpp Require Import base option list functions gmap.

#[global] Set Warnings "-inexact-float".

(* ===================================================================== *)
(** * Comparisons of numbers *)
(* ===================================================================== *)

#[global] Instance R_eq_dec : EqDecision R := Req_dec_T.

#[global] Instance Rgt_decision (a b : R) : Decision (a > b)%R := Rgt_dec a b.

#[global] Instance Rlt_decision (a b : R) : Decision (a < b)%R := Rlt_dec a b.

(* ===================================================================== *)
(** * types.ts *)
(* ===================================================================== *)

Inductive GestureType : Set := RESET | ONE | TWO | THREE | LOVE.

Record HandState : Set := { gesture : GestureType; isTracking : bool }.

#[global] Instance GestureType_eq_dec : EqDecision GestureType.
Proof. solve_decision. Defined.

Definition GestureType_code (g : GestureType) : nat :=
  match g with RESET => 0 | ONE => 1 | TWO => 2 | THREE => 3 | LOVE => 4 end.

Definition GestureType_of_code (n : nat) : option GestureType :=
  match n with
  | 0 => Some RESET | 1 => Some ONE | 2 => Some TWO | 3 => Some THREE
  | 4 => Some LOVE | _ => None
  end.

#[global] Instance GestureType_countable : Countable GestureType.
Proof.
  apply (inj_countable GestureType_code GestureType_of_code).
  intros []; reflexivity.
Defined.

(** The five members of the enum, in declaration order. *)
Definition allGestures : list GestureType := [RESET; ONE; TWO; THREE; LOVE].

(* ===================================================================== *)
(** * components/HandManager.tsx *)
(* ===================================================================== *)

Module HandManager.

(** A MediaPipe normalized landmark: three numbers. *)
Record Landmark : Type := { x : float; y : float; z : float }.

(** JavaScript [a > b] on numbers: the comparison of the two doubles,
    false when one of them is NaN. *)
Definition gtb (a b : float) : bool := (b <? a)%float.

(** [Math.pow(d, 2)].  For the exponent 2 the engines return the rounded
    product [d * d] (the case [y is 2] of fdlibm's [pow], which V8 and
    SpiderMonkey carry). *)
Definition pow2 (d : float) : float := (d * d)%float.

(** [distSq]: [Math.pow(p1.x - p2.x, 2) + Math.pow(p1.y - p2.y, 2)], every
    operation rounded to a double. *)
Definition distSq (p1 p2 : Landmark) : float :=
  (pow2 (x p1 - x p2) + pow2 (y p1 - y p2))%float.

(** The five finger-open booleans of one frame. *)
Record Fingers : Set := {
  thumbOpen : bool; indexOpen : bool; middleOpen : bool;
  ringOpen : bool; pinkyOpen : bool
}.

(** [isFingerOpen(tipIdx, pipIdx)].  [lm[k]] on a missing index is
    [undefined], whose [.x] throws: [None]. *)
Definition isFingerOpen (lm : list Landmark) (tipIdx pipIdx : nat) : option bool :=
  wrist ← lm !! 0;
  tip ← lm !! tipIdx;
  wrist' ← lm !! 0;
  pip ← lm !! pipIdx;
  Some (gtb (distSq wrist tip) (distSq wrist' pip * 1.1)%float).

(** Steps 1 to 3 of the hand branch of [predictWebcam]: palm scale, the
    four long fingers, the thumb. *)
Definition fingerStates (lm : list Landmark) : option Fingers :=
  wrist ← lm !! 0;
  indexMcp ← lm !! 5;
  let palmScaleSq := distSq wrist indexMcp in
  indexOpen ← isFingerOpen lm 8 6;
  middleOpen ← isFingerOpen lm 12 10;
  ringOpen ← isFingerOpen lm 16 14;
  pinkyOpen ← isFingerOpen lm 20 18;
  thumbTip ← lm !! 4;
  indexMcp' ← lm !! 5;
  let thumbTipToIdxMcp := distSq thumbTip indexMcp' in
  let thumbOpen := gtb thumbTipToIdxMcp (palmScaleSq * 0.6)%float in
  Some {| thumbOpen := thumbOpen; indexOpen := indexOpen;
          middleOpen := middleOpen; ringOpen := ringOpen;
          pinkyOpen := pinkyOpen |}.

(** Step 4, the [if / else if] chain. *)
Definition classifyFingers (f : Fingers) : GestureType :=
  let thumbOpen := thumbOpen f in
  let indexOpen := indexOpen f in
  let middleOpen := middleOpen f in
  let ringOpen := ringOpen f in
  let pinkyOpen := pinkyOpen f in
  if indexOpen && middleOpen && ringOpen && pinkyOpen then LOVE
  else if indexOpen && middleOpen && ringOpen && negb pinkyOpen then THREE
  else if thumbOpen && indexOpen && middleOpen && negb ringOpen && negb pinkyOpen then THREE
  else if indexOpen && middleOpen && negb ringOpen && negb pinkyOpen then TWO
  else if thumbOpen && indexOpen && negb middleOpen && negb ringOpen && negb pinkyOpen then TWO
  else if indexOpen && negb middleOpen && negb ringOpen && negb pinkyOpen then ONE
  else RESET.

(** The classification part of [predictWebcam]; [landmarks] is
    [results.landmarks], one landmark list per detected hand. *)
Definition detectGesture (landmarks : list (list Landmark)) : option GestureType :=
  let hands := length landmarks in
  if bool_decide (0 < hands) then
    lm ← landmarks !! 0;
    f ← fingerStates lm;
    Some (classifyFingers f)
  else Some RESET.

(** ** The rule list as the specification words it *)

(** One guarded rule: the fingers that must be open, the fingers that must
    be closed, and the label. *)
Inductive Finger : Set := Thumb | Index | Middle | Ring | Pinky.

Definition isOpen (f : Fingers) (k : Finger) : bool :=
  match k with
  | Thumb => thumbOpen f | Index => indexOpen f | Middle => middleOpen f
  | Ring => ringOpen f | Pinky => pinkyOpen f
  end.

Record Rule : Set := { mustOpen : list Finger; mustClosed : list Finger; label : GestureType }.

Definition matches (f : Fingers) (r : Rule) : bool :=
  forallb (isOpen f) (mustOpen r) && forallb (λ k, negb (isOpen f k)) (mustClosed r).

Definition orderedRules : list Rule :=
  [ {| mustOpen := [Index; Middle; Ring; Pinky]; mustClosed := []; label := LOVE |};
    {| mustOpen := [Index; Middle; Ring]; mustClosed := [Pinky]; label := THREE |};
    {| mustOpen := [Thumb; Index; Middle]; mustClosed := [Ring; Pinky]; label := THREE |};
    {| mustOpen := [Index; Middle]; mustClosed := [Ring; Pinky]; label := TWO |};
    {| mustOpen := [Thumb; Index]; mustClosed := [Middle; Ring; Pinky]; label := TWO |};
    {| mustOpen := [Index]; mustClosed := [Middle; Ring; Pinky]; label := ONE |} ].

(** First matching rule wins; [RESET] when none matches. *)
Fixpoint firstMatch (rules : list Rule) (f : Fingers) : GestureType :=
  match rules with
  | [] => RESET
  | r :: rules' => if matches f r then label r else firstMatch rules' f
  end.

(** The classifier of the specification: [None] stands for an absent hand. *)
Definition classifySpec (hand : option Fingers) : GestureType :=
  match hand with
  | None => RESET
  | Some f => firstMatch orderedRules f
  end.

(** ** Finger states as the specification words them *)

(** [a > b] between two numbers of the program. *)
Definition exceeds (a b : float) : Prop := (b <? a)%float = true.

(** Squared distance of two landmarks in the image plane, in the
    arithmetic of the program: differences, squares and sum are doubles. *)
Definition squaredDistance (p q : Landmark) : float :=
  ((x p - x q) * (x p - x q) + (y p - y q) * (y p - y q))%float.

(** A long finger is open: the tip is farther from the wrist (landmark 0)
    than the pip joint by the factor 1.1 on the squared distances. *)
Definition fingerOpenSpec (lm : list Landmark) (tipIdx pipIdx : nat) : Prop :=
  ∃ wrist tip pip,
    lm !! 0 = Some wrist ∧ lm !! tipIdx = Some tip ∧ lm !! pipIdx = Some pip ∧
    exceeds (squaredDistance wrist tip) (1.1 * squaredDistance wrist pip)%float.

(** The thumb is open: its tip (landmark 4) is farther from the index MCP
    (landmark 5) than 0.6 of the squared palm scale. *)
Definition thumbOpenSpec (lm : list Landmark) : Prop :=
  ∃ wrist thumbTip indexMcp,
    lm !! 0 = Some wrist ∧ lm !! 4 = Some thumbTip ∧ lm !! 5 = Some indexMcp ∧
    let palmScaleSq := squaredDistance wrist indexMcp in
    exceeds (squaredDistance thumbTip indexMcp) (0.6 * palmScaleSq)%float.

(** ** Signal smoothing (debouncing) *)

Definition BUFFER_SIZE : nat := 3.

(** The two refs of the component that the smoothing code reads and writes. *)
Record Smoothing : Set := {
  gestureBuffer : list GestureType;
  lastEmittedGesture : GestureType
}.

(** The refs as the component creates them. *)
Definition initialSmoothing : Smoothing :=
  {| gestureBuffer := []; lastEmittedGesture := RESET |}.

(** [gestureBuffer.current.push(detectedGesture)], then one [shift()] when
    the length exceeds [BUFFER_SIZE]. *)
Definition pushGesture (buffer : list GestureType) (detectedGesture : GestureType)
  : list GestureType :=
  let pushed := buffer ++ [detectedGesture] in
  if bool_decide (BUFFER_SIZE < length pushed) then tail pushed else pushed.

(** The locals of the mode calculation: [counts], [maxCount],
    [smoothGesture]. *)
Record Tally : Type := {
  counts : gmap GestureType nat;
  maxCount : nat;
  smoothGesture : GestureType
}.

(** The body of the [forEach] callback. *)
Definition tallyGesture (acc : Tally) (g : GestureType) : Tally :=
  let n := default 0 (counts acc !! g) + 1 in
  let counts' := <[g := n]> (counts acc) in
  if bool_decide (maxCount acc < n)
  then {| counts := counts'; maxCount := n; smoothGesture := g |}
  else {| counts := counts'; maxCount := maxCount acc; smoothGesture := smoothGesture acc |}.

(** The mode calculation over the whole buffer. *)
Definition modeOf (buffer : list GestureType) (lastEmitted : GestureType) : Tally :=
  foldl tallyGesture
        {| counts := ∅; maxCount := 0; smoothGesture := lastEmitted |}
        buffer.

(** [maxCount > BUFFER_SIZE / 2]: the division is the real one (1.5), so
    the test on integers is [BUFFER_SIZE < 2 * maxCount]. *)
Definition overHalf (maxCount : nat) : bool := bool_decide (BUFFER_SIZE < 2 * maxCount).

(** The smoothing part of [predictWebcam] for one frame: the new refs and
    the argument of [onHandUpdate] when it is called. *)
Definition smooth (s : Smoothing) (detectedGesture : GestureType) (hands : nat)
  : Smoothing * option HandState :=
  let buffer := pushGesture (gestureBuffer s) detectedGesture in
  let t := modeOf buffer (lastEmittedGesture s) in
  if overHalf (maxCount t) then
    if bool_decide (smoothGesture t ≠ lastEmittedGesture s) then
      ({| gestureBuffer := buffer; lastEmittedGesture := smoothGesture t |},
       Some {| gesture := smoothGesture t; isTracking := bool_decide (0 < hands) |})
    else ({| gestureBuffer := buffer; lastEmittedGesture := lastEmittedGesture s |}, None)
  else ({| gestureBuffer := buffer; lastEmittedGesture := lastEmittedGesture s |}, None).

(** A run of frames: the raw label and the number of hands of each. *)
Fixpoint smoothAll (s : Smoothing) (frames : list (GestureType * nat))
  : Smoothing * list (option HandState) :=
  match frames with
  | [] => (s, [])
  | (g, hands) :: frames' =>
      let '(s1, out) := smooth s g hands in
      let '(s2, outs) := smoothAll s1 frames' in
      (s2, out :: outs)
  end.

(** ** The mode as the specification words it *)

(** Occurrences of [g] in the buffer. *)
Definition occurrences (g : GestureType) (buffer : list GestureType) : nat :=
  length (filter (λ h, h = g) buffer).

(** Position of the first occurrence of [g]. *)
Definition firstSeen (g : GestureType) (buffer : list GestureType) : option nat :=
  fst <$> list_find (λ h, h = g) buffer.

(** [m] is the modal label with first-seen-wins ties: nobody occurs more
    often, and whoever occurs as often was first seen later. *)
Definition isModeFirstSeen (m : GestureType) (buffer : list GestureType) : Prop :=
  0 < occurrences m buffer ∧
  ∀ g, occurrences g buffer ≤ occurrences m buffer ∧
       (g ≠ m → occurrences g buffer = occurrences m buffer →
        ∃ i j, firstSeen m buffer = Some i ∧ firstSeen g buffer = Some j ∧ i < j).

(** ** predictWebcam as a whole *)

(** What one call of [predictWebcam] finds: the two refs it tests, the
    video's [readyState], and [results.landmarks] of [detectForVideo]. *)
Record VideoFrame : Type := {
  landmarkerReady : bool;
  videoMounted : bool;
  readyState : nat;
  landmarks : list (list Landmark)
}.

(** What the call leaves: the smoothing refs, the argument of
    [onHandUpdate] when it was called, and whether
    [requestAnimationFrame(predictWebcam)] was reached. *)
Record FrameOutcome : Type := {
  refs : Smoothing;
  emitted : option HandState;
  rescheduled : bool
}.

(** One call of [predictWebcam].  [None]: the call threw (a landmark was
    missing), so nothing after the classification ran. *)
Definition predictWebcam (s : Smoothing) (v : VideoFrame) : option FrameOutcome :=
  if negb (landmarkerReady v) || negb (videoMounted v) then
    Some {| refs := s; emitted := None; rescheduled := false |}
  else if bool_decide (2 ≤ readyState v) then
    detectedGesture ← detectGesture (landmarks v);
    let hands := length (landmarks v) in
    let '(s', out) := smooth s detectedGesture hands in
    Some {| refs := s'; emitted := out; rescheduled := true |}
  else Some {| refs := s; emitted := None; rescheduled := true |}.

(** How the animation-frame loop stands. *)
Inductive LoopStatus : Set := Running | Stopped | Crashed.

(** The loop over the frames the browser delivers: it goes on as long as
    each call reschedules itself; [onHandUpdate] receives the emitted
    states in order. *)
Fixpoint predictLoop (s : Smoothing) (frames : list VideoFrame)
  : Smoothing * list HandState * LoopStatus :=
  match frames with
  | [] => (s, [], Running)
  | v :: frames' =>
      match predictWebcam s v with
      | None => (s, [], Crashed)
      | Some o =>
          let updates := match emitted o with Some e => [e] | None => [] end in
          if rescheduled o then
            let '(s', later, status) := predictLoop (refs o) frames' in
            (s', updates ++ later, status)
          else (refs o, updates, Stopped)
      end
  end.

(** Another depth for every landmark. *)
Definition withDepth (depth : Landmark → float) (p : Landmark) : Landmark :=
  {| x := x p; y := y p; z := depth p |}.

(** How many of the five fingers are open. *)
Definition openCount (f : Fingers) : nat :=
  Nat.b2n (thumbOpen f) + Nat.b2n (indexOpen f) + Nat.b2n (middleOpen f) +
  Nat.b2n (ringOpen f) + Nat.b2n (pinkyOpen f).

(** ** Definitions the proofs work with *)

#[global] Instance HandState_eq_dec : EqDecision HandState.
Proof. solve_decision. Defined.

(** A hand with every landmark at the origin except the index tip: only
    the index finger is open. *)
Definition pointingHand : list Landmark :=
  <[8 := {| x := 1; y := 0; z := 0 |}]> (replicate 21 {| x := 0; y := 0; z := 0 |}).

(** A hand on the boundary of the index rule: wrist at the origin, index
    pip at (0, 1), index tip at (1.0488088481701516, 0), whose squared
    distance from the wrist rounds to the double 1.1. *)
Definition boundaryHand : list Landmark :=
  <[6 := {| x := 0; y := 1; z := 0 |}]>
    (<[8 := {| x := 1.0488088481701516; y := 0; z := 0 |}]>
       (replicate 21 {| x := 0; y := 0; z := 0 |})).

(** Boolean form of [isModeFirstSeen], one label at a time. *)
Definition modeCheck1 (m : GestureType) (buffer : list GestureType) (g : GestureType) : bool :=
  bool_decide (occurrences g buffer ≤ occurrences m buffer) &&
  (bool_decide (g = m) ||
   negb (bool_decide (occurrences g buffer = occurrences m buffer)) ||
   match firstSeen m buffer, firstSeen g buffer with
   | Some i, Some j => bool_decide (i < j)
   | _, _ => false
   end).

Definition modeCheck (m : GestureType) (buffer : list GestureType) : bool :=
  bool_decide (0 < occurrences m buffer) && forallb (modeCheck1 m buffer) allGestures.

(** At most [BUFFER_SIZE] labels are buffered, and a label that fills two
    slots is the label last emitted. *)
Definition settled (s : Smoothing) : Prop :=
  length (gestureBuffer s) ≤ BUFFER_SIZE ∧
  ∀ g, 2 ≤ occurrences g (gestureBuffer s) → lastEmittedGesture s = g.

Definition settledb (s : Smoothing) : bool :=
  bool_decide (length (gestureBuffer s) ≤ BUFFER_SIZE) &&
  forallb (λ g, bool_decide (occurrences g (gestureBuffer s) < 2) ||
                bool_decide (lastEmittedGesture s = g)) allGestures.

(** [g] is the label last emitted and fills two slots of the buffer. *)
Definition sustained (g : GestureType) (s : Smoothing) : Prop :=
  length (gestureBuffer s) ≤ BUFFER_SIZE ∧
  lastEmittedGesture s = g ∧
  2 ≤ occurrences g (gestureBuffer s).

Definition sustainedb (g : GestureType) (s : Smoothing) : bool :=
  bool_decide (length (gestureBuffer s) ≤ BUFFER_SIZE) &&
  bool_decide (lastEmittedGesture s = g) &&
  bool_decide (2 ≤ occurrences g (gestureBuffer s)).

(** From a settled state only the raw label itself can be emitted, and it
    then fills two slots. *)
Definition emitsRawCheck (s : Smoothing) (g : GestureType) : bool :=
  negb (settledb s) ||
  match (smooth s g 0).2 with
  | None => true
  | Some e => bool_decide (gesture e = g) && sustainedb g (smooth s g 0).1
  end.

(** While the raw label stays the sustained one nothing is emitted. *)
Definition quietCheck (s : Smoothing) (g : GestureType) : bool :=
  negb (sustainedb g s) ||
  (bool_decide ((smooth s g 0).2 = None) && sustainedb g (smooth s g 0).1).

(** ** Runs of the loop and of the app *)

(** The indices [lm[k]] that the hand branch reads. *)
Definition usedLandmarks : list nat := [0; 4; 5; 6; 8; 10; 12; 14; 16; 18; 20].

(** What [distSq] reads of a landmark. *)
Definition inPlane (p : Landmark) : float * float := (x p, y p).

(** The landmarker and the video are there, and the first hand, if any, has
    its 21 landmarks. *)
Definition healthy (v : VideoFrame) : Prop :=
  landmarkerReady v = true ∧ videoMounted v = true ∧
  ∀ lm, landmarks v !! 0 = Some lm → 21 ≤ length lm.

(** The raw label and the number of hands of the frames that are analysed. *)
Definition rawFrames (frames : list VideoFrame) : list (GestureType * nat) :=
  omap (λ v, if bool_decide (2 ≤ readyState v)
             then (λ g, (g, length (landmarks v))) <$> detectGesture (landmarks v)
             else None) frames.

(** The arguments of the calls of [onHandUpdate]. *)
Definition updatesOf (outs : list (option HandState)) : list HandState :=
  omap (λ out, out) outs.

(** A frame that is analysed and shows the pointing hand; a frame of a
    video that has no data yet. *)
Definition pointingFrame : VideoFrame :=
  {| landmarkerReady := true; videoMounted := true; readyState := 4;
     landmarks := [pointingHand] |}.

Definition loadingFrame : VideoFrame :=
  {| landmarkerReady := true; videoMounted := true; readyState := 1;
     landmarks := [] |}.

(** The invariant of the app: what the [handState] shows is what the
    debouncer emitted last. *)
Definition inSync (s : Smoothing) (handState : HandState) : Prop :=
  settled s ∧ gesture handState = lastEmittedGesture s ∧
  (gesture handState ≠ RESET → isTracking handState = true).

(** A frame that shows a fist: every landmark at one point. *)
Definition fistFrame : VideoFrame :=
  {| landmarkerReady := true; videoMounted := true; readyState := 4;
     landmarks := [replicate 21 {| x := 0; y := 0; z := 0 |}] |}.

(** [g] was the raw label of the two newest frames and is the label last
    emitted. *)
Definition fresh (g : GestureType) (s : Smoothing) : Prop :=
  lastEmittedGesture s = g ∧
  (gestureBuffer s = [g; g] ∨ ∃ older, gestureBuffer s = [older; g; g]).

(** Frames whose raw labels alternate, starting with [a]. *)
Fixpoint alternate (a b : GestureType) (hands : list nat) : list (GestureType * nat) :=
  match hands with
  | [] => []
  | h :: hands' => (a, h) :: alternate b a hands'
  end.

(** The state a frame emits. *)
Definition report (frame : GestureType * nat) : option HandState :=
  Some {| gesture := frame.1; isTracking := bool_decide (0 < frame.2) |}.

End HandManager.

(* ===================================================================== *)
(** * utils/particleUtils.ts *)
(* ===================================================================== *)

Module ParticleUtils.

(** [new Float32Array(n)]: [n] zeros.  The length never changes, and a
    write past the end is ignored, which is what [<[k := v]>] does. *)
Definition newFloat32Array (n : nat) : list R := replicate n 0%R.

(** The returned object [{ positions, colors }]. *)
Record ParticleData : Type := { positions : list R; colors : list R }.

(** ** What the browser supplies *)

(** The drawing calls made on the 2D context, in order. *)
Inductive DrawCmd : Type :=
  | FillRect (fillStyle : string) (left top w h : R)
  | FillText (fillStyle font text : string) (atX atY : R).

Record Browser : Type := {
  (** [canvas.getContext('2d')] is not [null]. *)
  hasContext2d : bool;
  (** [ctx.measureText(text).width] under the given font. *)
  measureTextWidth : string → string → R;
  (** [ctx.getImageData(0, 0, w, h).data] after the given drawing calls on a
      canvas of [w] by [h] pixels: RGBA bytes, row by row. *)
  getImageData : list DrawCmd → nat → nat → list nat
}.

(** [Math.random]: the results of its successive calls.  A function that
    draws numbers takes the number of calls made so far and returns the
    number made when it is done. *)
Definition Random : Type := nat → R.

(** ** generateCloudParticles *)

(** [Math.cbrt]. *)
Definition cbrt (v : R) : R :=
  if decide (v = 0)%R then 0%R
  else if decide (0 < v)%R then Rpower v (1 / 3) else (- Rpower (- v) (1 / 3))%R.

(** One turn of the loop: three draws, three coordinates, the dim colour. *)
Definition cloudStep (random : Random) (st : list R * list R * nat) (i : nat)
  : list R * list R * nat :=
  let '(positions, colors, calls) := st in
  let r := (10 * cbrt (random calls))%R in
  let theta := (random (calls + 1)%nat * 2 * PI)%R in
  let phi := acos (2 * random (calls + 2)%nat - 1) in
  let positions := <[i * 3 := (r * sin phi * cos theta)%R]> positions in
  let positions := <[i * 3 + 1 := (r * sin phi * sin theta)%R]> positions in
  let positions := <[i * 3 + 2 := (r * cos phi)%R]> positions in
  let colors := <[i * 3 := 0.1%R]> colors in
  let colors := <[i * 3 + 1 := 0.15%R]> colors in
  let colors := <[i * 3 + 2 := 0.2%R]> colors in
  (positions, colors, calls + 3).

Definition generateCloudParticles (random : Random) (calls : nat) (particleCount : nat)
  : ParticleData * nat :=
  let positions := newFloat32Array (particleCount * 3) in
  let colors := newFloat32Array (particleCount * 3) in
  let '(positions, colors, calls) :=
    foldl (cloudStep random) (positions, colors, calls) (seq 0 particleCount) in
  ({| positions := positions; colors := colors |}, calls).

(** The point the loop computes from the three draws that start at call
    number [call]: coordinate 0 (x), 1 (y) or 2 (z). *)
Definition cloudPoint (random : Random) (call : nat) (axis : nat) : R :=
  let r := (10 * cbrt (random call))%R in
  let theta := (random (call + 1)%nat * 2 * PI)%R in
  let phi := acos (2 * random (call + 2)%nat - 1) in
  match axis with
  | 0 => (r * sin phi * cos theta)%R
  | 1 => (r * sin phi * sin theta)%R
  | _ => (r * cos phi)%R
  end.

(** ** generateTextParticles *)

Definition fontSize : R := 120.

(** [`900 ${fontSize}px Arial, sans-serif`]. *)
Definition arialFont : string := "900 120px Arial, sans-serif".

Definition quote : string := String (Ascii.ascii_of_nat 34) EmptyString.

(** [`900 ${fontSize}px "Segoe UI Emoji", "Apple Color Emoji",
    "Noto Color Emoji", sans-serif`]. *)
Definition emojiFont : string :=
  ("900 120px " ++ quote ++ "Segoe UI Emoji" ++ quote ++ ", "
     ++ quote ++ "Apple Color Emoji" ++ quote ++ ", "
     ++ quote ++ "Noto Color Emoji" ++ quote ++ ", sans-serif")%string.

(** The text that gets the special drawing. *)
Definition loveText : string := "I ❤️ U".

(** The drawing calls for [text] on a canvas of [w] by [h] pixels: the
    black background, then the glyphs ([textAlign] is ['center'] and
    [textBaseline] is ['middle'] throughout). *)
Definition drawCalls (text : string) (w h : nat) : list DrawCmd :=
  FillRect "#000000" 0 0 (INR w) (INR h) ::
  if decide (text = loveText) then
    let cx := (INR w / 2)%R in
    let cy := (INR h / 2)%R in
    [ FillText "#FFFFFF" arialFont "I" (cx - fontSize * 1.2) cy;
      FillText "#FF0000" emojiFont "❤️" cx cy;
      FillText "#FFFFFF" arialFont "U" (cx + fontSize * 1.2) cy ]
  else
    [ FillText "#FFFFFF" arialFont text (INR w / 2) (INR h / 2) ].

(** An entry of [pixelColors]. *)
Record PixelColor : Type := { r : R; g : R; b : R }.

(** [data[k]]; a missing byte is [undefined], which is not [> 30]. *)
Definition byteAt (data : list nat) (k : nat) : nat := default 0 (data !! k).

(** One turn of the pixel scan: a pixel with a channel above 30 is pushed
    on [validPixels], and its three channels over 255 on [pixelColors]. *)
Definition scanStep (data : list nat) (st : list nat * list PixelColor) (i : nat)
  : list nat * list PixelColor :=
  let '(validPixels, pixelColors) := st in
  let r := byteAt data (i * 4) in
  let g := byteAt data (i * 4 + 1) in
  let b := byteAt data (i * 4 + 2) in
  if bool_decide (30 < r) || bool_decide (30 < g) || bool_decide (30 < b) then
    (validPixels ++ [i],
     pixelColors ++ [{| r := (INR r / 255)%R; g := (INR g / 255)%R; b := (INR b / 255)%R |}])
  else (validPixels, pixelColors).

Definition scanPixels (data : list nat) (w h : nat) : list nat * list PixelColor :=
  foldl (scanStep data) ([], []) (seq 0 (w * h)).

(** [arr[idx]] for a computed index: [undefined] when it is negative or
    past the end. *)
Definition at_index {A : Type} (arr : list A) (idx : Z) : option A :=
  if decide (0 ≤ idx)%Z then arr !! Z.to_nat idx else None.

(** One turn of the sampling loop.  [colorData.r] throws when the sampled
    index is off the list: [None]. *)
Definition sampleStep (random : Random) (w h : nat)
    (validPixels : list nat) (pixelColors : list PixelColor) (scale : R)
    (st : list R * list R * nat) (i : nat) : option (list R * list R * nat) :=
  let '(positions, colors, calls) := st in
  let sampleIdx := Zfloor (random calls * INR (length validPixels)) in
  pixelIndex ← at_index validPixels sampleIdx;
  colorData ← at_index pixelColors sampleIdx;
  let x := pixelIndex mod w in
  let y := pixelIndex / w in
  let px := ((INR x - INR w / 2) * scale)%R in
  let py := (- (INR y - INR h / 2) * scale)%R in
  let pz := 0%R in
  let positions := <[i * 3 := px]> positions in
  let positions := <[i * 3 + 1 := py]> positions in
  let positions := <[i * 3 + 2 := pz]> positions in
  let colors := <[i * 3 := r colorData]> colors in
  let colors := <[i * 3 + 1 := g colorData]> colors in
  let colors := <[i * 3 + 2 := b colorData]> colors in
  Some (positions, colors, calls + 1).

(** The loop [for (let i = 0; i < n; i++)] with a body that may throw. *)
Definition forEachIndex {S : Type} (body : S → nat → option S) (st : S) (n : nat)
  : option S :=
  foldl (λ acc i, acc ≫= λ st, body st i) (Some st) (seq 0 n).

(** [canvas.width] and [canvas.height] as the function sets them. *)
Definition canvasWidth (browser : Browser) (text : string) : nat :=
  let textWidth := Zceil (measureTextWidth browser arialFont text) in
  Z.to_nat (textWidth + 60).

Definition canvasHeight : nat :=
  let textHeight := Zceil (fontSize * 1.5) in
  Z.to_nat textHeight.

(** [imageData.data]: what the browser painted for the drawing calls. *)
Definition rasterOf (browser : Browser) (text : string) : list nat :=
  let w := canvasWidth browser text in
  let h := canvasHeight in
  getImageData browser (drawCalls text w h) w h.

Definition generateTextParticles (browser : Browser) (random : Random) (calls : nat)
    (text : string) (particleCount : nat) : option (ParticleData * nat) :=
  if negb (hasContext2d browser) then
    Some ({| positions := newFloat32Array (particleCount * 3);
             colors := newFloat32Array (particleCount * 3) |}, calls)
  else
    let w := canvasWidth browser text in
    let h := canvasHeight in
    let data := rasterOf browser text in
    let '(validPixels, pixelColors) := scanPixels data w h in
    let positions := newFloat32Array (particleCount * 3) in
    let colors := newFloat32Array (particleCount * 3) in
    if bool_decide (length validPixels = 0) then
      Some (generateCloudParticles random calls particleCount)
    else
      let targetWidth := 20%R in
      let scale := (targetWidth / INR w)%R in
      '(positions, colors, calls) ←
        forEachIndex (sampleStep random w h validPixels pixelColors scale)
                     (positions, colors, calls) particleCount;
      Some ({| positions := positions; colors := colors |}, calls).

(** ** The lit set as the specification words it *)

(** Pixel [i] of the raster is lit: a channel is above 30. *)
Definition lit (data : list nat) (i : nat) : Prop :=
  30 < byteAt data (i * 4) ∨ 30 < byteAt data (i * 4 + 1) ∨ 30 < byteAt data (i * 4 + 2).

#[global] Instance lit_dec (data : list nat) (i : nat) : Decision (lit data i).
Proof. unfold lit. apply _. Defined.

(** The lit set of the raster painted for [text], in scan order. *)
Definition litPixels (browser : Browser) (text : string) : list nat :=
  filter (lit (rasterOf browser text))
         (seq 0 (canvasWidth browser text * canvasHeight)).

(** The rasterised colour of pixel [i], each channel over 255. *)
Definition normalizedColor (data : list nat) (i : nat) : PixelColor :=
  {| r := (INR (byteAt data (i * 4)) / 255)%R;
     g := (INR (byteAt data (i * 4 + 1)) / 255)%R;
     b := (INR (byteAt data (i * 4 + 2)) / 255)%R |}.

(** The colour triple of particle [i]. *)
Definition colorOf (d : ParticleData) (i : nat) : option PixelColor :=
  cr ← colors d !! (i * 3);
  cg ← colors d !! (i * 3 + 1);
  cb ← colors d !! (i * 3 + 2);
  Some {| r := cr; g := cg; b := cb |}.

Definition white : PixelColor := {| r := 1; g := 1; b := 1 |}.
Definition red : PixelColor := {| r := 1; g := 0; b := 0 |}.
Definition black : PixelColor := {| r := 0; g := 0; b := 0 |}.

(** ** Three writes at once *)

Definition insert3 (i : nat) (v0 v1 v2 : R) (l : list R) : list R :=
  <[i * 3 + 2 := v2]> (<[i * 3 + 1 := v1]> (<[i * 3 := v0]> l)).

(** ** Browsers to run the generators with *)

(** Image data made of one RGBA quadruple per pixel. *)
Definition pixelsData (pixel : nat → list nat) (n : nat) : list nat :=
  flat_map pixel (seq 0 n).

(** No 2D context at all. *)
Definition headlessBrowser : Browser :=
  {| hasContext2d := false;
     measureTextWidth := λ _ _, 0%R;
     getImageData := λ _ _ _, [] |}.

(** A context whose fonts draw nothing: only the black background. *)
Definition blankBrowser : Browser :=
  {| hasContext2d := true;
     measureTextWidth := λ _ _, 40%R;
     getImageData := λ _ w h, pixelsData (λ _, [0; 0; 0; 255]) (w * h) |}.

(** A raster with one pixel inside a glyph (full white) and one on its
    anti-aliased edge (mid grey), the rest background. *)
Definition edgePixel (i : nat) : list nat :=
  match i with
  | 0 => [255; 255; 255; 255]
  | 1 => [128; 128; 128; 255]
  | _ => [0; 0; 0; 255]
  end.

Definition antialiasingBrowser : Browser :=
  {| hasContext2d := true;
     measureTextWidth := λ _ _, 40%R;
     getImageData := λ _ w h, pixelsData edgePixel (w * h) |}.

Definition grey : PixelColor :=
  {| r := (INR 128 / 255)%R; g := (INR 128 / 255)%R; b := (INR 128 / 255)%R |}.

(** [Math.random] returning one half every time. *)
Definition halves : Random := λ _, 0.5%R.

End ParticleUtils.

(* ===================================================================== *)
(** * components/Experience.tsx: the Particles component *)
(* ===================================================================== *)

Module Experience.

Import ParticleUtils.

Definition PARTICLE_COUNT : nat := 3000.
Definition MORPH_SPEED : R := 0.1.

(** The [Float32Array] objects the component holds.  Each target field is
    made once by [useMemo]; [currentPositions] and [currentColors] are the
    [slice()] copies of the RESET field. *)
Inductive ArrayRef : Set :=
  | TargetPositions (gesture : GestureType)
  | TargetColors (gesture : GestureType)
  | CurrentPositions
  | CurrentColors.

#[global] Instance ArrayRef_eq_dec : EqDecision ArrayRef.
Proof. solve_decision. Defined.

(** The contents of the arrays. *)
Definition Heap : Type := ArrayRef → list R.

(** The arrays of the two geometry attributes.  The JSX passes
    [array={initialPositions}] and [array={initialColors}] to the buffer
    attributes, and [initialPositions] is [targets[RESET].positions]
    itself (likewise the colours): the attribute and the RESET target are
    one object, so [posAttr.setXYZ] writes into the RESET target. *)
Definition posAttr : ArrayRef := TargetPositions RESET.
Definition colAttr : ArrayRef := TargetColors RESET.

(** [arr[k]] as a number.  A read past the end is [undefined] in the
    source; the properties below are stated for arrays that are long
    enough. *)
Definition read (heap : Heap) (arr : ArrayRef) (k : nat) : R :=
  default 0%R (heap arr !! k).

(** [arr[k] = v]. *)
Definition write (heap : Heap) (arr : ArrayRef) (k : nat) (v : R) : Heap :=
  fn_insert arr (<[k := v]> (heap arr)) heap.

(** [BufferAttribute.setXYZ(index, x, y, z)] with [itemSize] 3. *)
Definition setXYZ (heap : Heap) (attr : ArrayRef) (index : nat) (vx vy vz : R) : Heap :=
  let heap := write heap attr (index * 3) vx in
  let heap := write heap attr (index * 3 + 1) vy in
  write heap attr (index * 3 + 2) vz.

(** The [targets] object of [useMemo], built in the order of its keys. *)
Definition makeTargets (browser : Browser) (random : Random) (calls : nat)
  : option ((GestureType → ParticleData) * nat) :=
  let '(reset, calls) := generateCloudParticles random calls PARTICLE_COUNT in
  '(one, calls) ← generateTextParticles browser random calls "1" PARTICLE_COUNT;
  '(two, calls) ← generateTextParticles browser random calls "2" PARTICLE_COUNT;
  '(three, calls) ← generateTextParticles browser random calls "3" PARTICLE_COUNT;
  '(love, calls) ← generateTextParticles browser random calls loveText PARTICLE_COUNT;
  Some (λ gesture,
          match gesture with
          | RESET => reset | ONE => one | TWO => two | THREE => three | LOVE => love
          end, calls).

(** The arrays after the first render. *)
Definition mount (browser : Browser) (random : Random) (calls : nat) : option Heap :=
  '(targets, _) ← makeTargets browser random calls;
  let initialPositions := positions (targets RESET) in
  let initialColors := colors (targets RESET) in
  Some (λ arr,
          match arr with
          | TargetPositions gesture => positions (targets gesture)
          | TargetColors gesture => colors (targets gesture)
          | CurrentPositions => initialPositions
          | CurrentColors => initialColors
          end).

(** [gesture === GestureType.LOVE ? 0.2 : MORPH_SPEED]. *)
Definition speedOf (gesture : GestureType) : R :=
  if decide (gesture = LOVE) then 0.2%R else MORPH_SPEED.

(** [current += (target - current) * speed]. *)
Definition approach (current target speed : R) : R :=
  (current + (target - current) * speed)%R.

(** The body of the particle loop of the [useFrame] callback, first half:
    the target of slot [i], the idle motion, the three coordinates, the
    position attribute. *)
Definition movePosition (gesture : GestureType) (elapsedTime : R) (heap : Heap) (i : nat)
  : Heap :=
  let speed := speedOf gesture in
  let ix := i * 3 in
  let tx := read heap (TargetPositions gesture) ix in
  let ty := read heap (TargetPositions gesture) (ix + 1) in
  let tz := read heap (TargetPositions gesture) (ix + 2) in
  let '(tx, ty) :=
    if decide (gesture = RESET) then
      let t := elapsedTime in
      ((tx + sin (t * 0.5 + INR i) * 0.5)%R,
       (ty + cos (t * 0.3 + INR i * 0.5) * 0.5)%R)
    else (tx, ty) in
  let heap := write heap CurrentPositions ix
                (approach (read heap CurrentPositions ix) tx speed) in
  let heap := write heap CurrentPositions (ix + 1)
                (approach (read heap CurrentPositions (ix + 1)) ty speed) in
  let heap := write heap CurrentPositions (ix + 2)
                (approach (read heap CurrentPositions (ix + 2)) tz speed) in
  setXYZ heap posAttr i
    (read heap CurrentPositions ix)
    (read heap CurrentPositions (ix + 1))
    (read heap CurrentPositions (ix + 2)).

(** Second half: the three colour channels, the colour attribute. *)
Definition moveColor (gesture : GestureType) (heap : Heap) (i : nat) : Heap :=
  let speed := speedOf gesture in
  let ix := i * 3 in
  let tCr := read heap (TargetColors gesture) ix in
  let tCg := read heap (TargetColors gesture) (ix + 1) in
  let tCb := read heap (TargetColors gesture) (ix + 2) in
  let heap := write heap CurrentColors ix
                (approach (read heap CurrentColors ix) tCr speed) in
  let heap := write heap CurrentColors (ix + 1)
                (approach (read heap CurrentColors (ix + 1)) tCg speed) in
  let heap := write heap CurrentColors (ix + 2)
                (approach (read heap CurrentColors (ix + 2)) tCb speed) in
  setXYZ heap colAttr i
    (read heap CurrentColors ix)
    (read heap CurrentColors (ix + 1))
    (read heap CurrentColors (ix + 2)).

Definition particleStep (gesture : GestureType) (elapsedTime : R) (heap : Heap) (i : nat)
  : Heap :=
  moveColor gesture (movePosition gesture elapsedTime heap i) i.

(** The loop over [particleCount] particles. *)
Definition morphParticles (particleCount : nat) (gesture : GestureType) (elapsedTime : R)
    (heap : Heap) : Heap :=
  foldl (particleStep gesture elapsedTime) heap (seq 0 particleCount).

(** The [useFrame] callback once the geometry is mounted. *)
Definition useFrame (gesture : GestureType) (elapsedTime : R) (heap : Heap) : Heap :=
  morphParticles PARTICLE_COUNT gesture elapsedTime heap.

(** Successive frames, each with the gesture it sees and its elapsed time. *)
Definition morphFrames (particleCount : nat) (frames : list (GestureType * R))
    (heap : Heap) : Heap :=
  foldl (λ heap frame, morphParticles particleCount frame.1 frame.2 heap) heap frames.

Definition useFrames (frames : list (GestureType * R)) (heap : Heap) : Heap :=
  morphFrames PARTICLE_COUNT frames heap.

(** Frames that all see the same gesture. *)
Definition held (gesture : GestureType) (times : list R) : list (GestureType * R) :=
  (λ elapsedTime, (gesture, elapsedTime)) <$> times.

(** ** The morph step as the specification words it *)

(** The idle offset of particle [i] on axis 0 (x), 1 (y) or 2 (z). *)
Definition idleOffset (elapsedTime : R) (i : nat) (axis : nat) : R :=
  match axis with
  | 0 => (sin (elapsedTime * 0.5 + INR i) * 0.5)%R
  | 1 => (cos (elapsedTime * 0.3 + INR i * 0.5) * 0.5)%R
  | _ => 0%R
  end.

(** The effective target of particle [i] on an axis: slot [i] of the
    selected target, perturbed when the gesture is RESET. *)
Definition effectiveTarget (heap : Heap) (gesture : GestureType) (elapsedTime : R)
    (i axis : nat) : R :=
  let target := read heap (TargetPositions gesture) (i * 3 + axis) in
  if decide (gesture = RESET) then (target + idleOffset elapsedTime i axis)%R else target.

(** 0.2 for LOVE, 0.1 otherwise. *)
Definition rateOf (gesture : GestureType) : R :=
  match gesture with LOVE => 0.2%R | _ => 0.1%R end.

(** Every array holds three numbers per particle. *)
Definition wellSized (particleCount : nat) (heap : Heap) : Prop :=
  ∀ arr : ArrayRef, length (heap arr) = particleCount * 3.

(** ** The loop invariant *)

(** What holds after the first [n] turns of the loop. *)
Definition morphedUpTo (P n : nat) (g : GestureType) (t : R) (h h' : Heap) : Prop :=
  (∀ arr, length (h' arr) = P * 3) ∧
  (∀ i axis, i < n → axis < 3 →
     h' CurrentPositions !! (i * 3 + axis) =
       Some (approach (read h CurrentPositions (i * 3 + axis))
                      (effectiveTarget h g t i axis) (speedOf g)) ∧
     h' CurrentColors !! (i * 3 + axis) =
       Some (approach (read h CurrentColors (i * 3 + axis))
                      (read h (TargetColors g) (i * 3 + axis)) (speedOf g)) ∧
     h' (TargetPositions RESET) !! (i * 3 + axis) = h' CurrentPositions !! (i * 3 + axis) ∧
     h' (TargetColors RESET) !! (i * 3 + axis) = h' CurrentColors !! (i * 3 + axis)) ∧
  (∀ k, n * 3 ≤ k →
     h' CurrentPositions !! k = h CurrentPositions !! k ∧
     h' CurrentColors !! k = h CurrentColors !! k ∧
     h' (TargetPositions RESET) !! k = h (TargetPositions RESET) !! k ∧
     h' (TargetColors RESET) !! k = h (TargetColors RESET) !! k) ∧
  (∀ g', g' ≠ RESET →
     h' (TargetPositions g') = h (TargetPositions g') ∧
     h' (TargetColors g') = h (TargetColors g')).

(** Arrays to run a frame on, away from their targets: every live
    coordinate at 1 and every live colour channel at 0.5 (the RESET target
    holds the same numbers), every digit and LOVE target at 5 with colour
    channels at 1. *)
Definition demoHeap : Heap := λ arr,
  replicate (PARTICLE_COUNT * 3)
    match arr with
    | TargetPositions RESET | CurrentPositions => 1%R
    | TargetPositions _ => 5%R
    | TargetColors RESET | CurrentColors => 0.5%R
    | TargetColors _ => 1%R
    end.

(** ** The assignment on machine numbers *)



(** ** RESET frames *)

(** The geometry attributes and the live arrays hold the same numbers. *)
Definition aliased (heap : Heap) : Prop :=
  heap (TargetPositions RESET) = heap CurrentPositions ∧
  heap (TargetColors RESET) = heap CurrentColors.

(** What the idle motion of the given frames adds up to for particle [i]
    on an axis: a tenth of each frame's offset. *)
Definition idleDrift (times : list R) (i axis : nat) : R :=
  foldr (λ elapsedTime acc, (idleOffset elapsedTime i axis * 0.1 + acc)%R) 0%R times.

End Experience.

(* ===================================================================== *)
(** * App.tsx *)
(* ===================================================================== *)

Module App.

Import HandManager.

(** [useState<HandState>({ gesture: RESET, isTracking: false })]. *)
Definition initialHandState : HandState := {| gesture := RESET; isTracking := false |}.

(** [onHandUpdate={setHandState}] applied to the emitted states in order. *)
Definition setHandStates (handState : HandState) (updates : list HandState) : HandState :=
  foldl (λ _ update, update) handState updates.

(** The hint is rendered when [!handState.isTracking]. *)
Definition showsHint (handState : HandState) : bool := negb (isTracking handState).

(** [Experience] renders the lights and balloons when
    [handState.gesture === GestureType.LOVE]. *)
Definition celebrates (handState : HandState) : bool :=
  bool_decide (gesture handState = LOVE).

(** The app after the frames: the smoothing refs, the [handState], the
    loop. *)
Definition run (frames : list VideoFrame) : Smoothing * HandState * LoopStatus :=
  let '(s, updates, status) := predictLoop initialSmoothing frames in
  (s, setHandStates initialHandState updates, status).

End App.

(* ===================================================================== *)
(** * components/Experience.tsx: the BalloonInstances component *)
(* ===================================================================== *)

Module BalloonInstances.

Import ParticleUtils.

Definition count : nat := 150.

Record Vector3 : Type := { vx : R; vy : R; vz : R }.

(** The arguments of [setHSL]. *)
Record Hsl : Type := { hue : R; saturation : R; lightness : R }.

(** One entry of [data]. *)
Record Balloon : Type := {
  position : Vector3;
  speed : R;
  wobbleOffset : R;
  wobbleSpeed : R;
  color : Hsl
}.

(** The callback of [map]: eight draws of [Math.random], in the order the
    object literal evaluates them. *)
Definition makeBalloon (random : Random) (calls : nat) : Balloon * nat :=
  let px := ((random calls - 0.5) * 40)%R in
  let py := (- 20 - random (calls + 1)%nat * 30)%R in
  let pz := ((random (calls + 2)%nat - 0.5) * 20)%R in
  let speed := (0.2 + random (calls + 3)%nat * 0.3)%R in
  let wobbleOffset := (random (calls + 4)%nat * PI * 2)%R in
  let wobbleSpeed := (2 + random (calls + 5)%nat)%R in
  let h := (random (calls + 6)%nat * 0.1 +
            (if decide (random (calls + 7)%nat > 0.5)%R then 0 else 0.9))%R in
  ({| position := {| vx := px; vy := py; vz := pz |};
      speed := speed; wobbleOffset := wobbleOffset; wobbleSpeed := wobbleSpeed;
      color := {| hue := h; saturation := 0.9; lightness := 0.6 |} |},
   calls + 8).

(** [new Array(n).fill(0).map(...)]. *)
Fixpoint makeBalloons (random : Random) (calls : nat) (n : nat) : list Balloon * nat :=
  match n with
  | 0 => ([], calls)
  | S n' =>
      let '(balloon, calls) := makeBalloon random calls in
      let '(rest, calls) := makeBalloons random calls n' in
      (balloon :: rest, calls)
  end.

(** The [data] of [useMemo]. *)
Definition makeData (random : Random) (calls : nat) : list Balloon * nat :=
  makeBalloons random calls count.

(** What [setMatrixAt] and [setColorAt] receive for one instance: the
    position and the uniform scale of [dummy], and the colour. *)
Record MeshInstance : Type := {
  shownAt : Vector3;
  shownScale : R;
  shownColor : Hsl
}.

(** The callback of [data.forEach] in [useFrame]: the balloon rises by its
    speed, restarts below the screen once it is above 25, and is shown with
    its wobble. *)
Definition moveBalloon (random : Random) (time : R) (d : Balloon) (calls : nat)
  : Balloon * nat * MeshInstance :=
  let y1 := (vy (position d) + speed d)%R in
  let '(px, py, calls) :=
    if decide (y1 > 25)%R then
      let y2 := (- 20 - random calls * 10)%R in
      let x2 := ((random (calls + 1)%nat - 0.5) * 40)%R in
      (x2, y2, calls + 2)
    else (vx (position d), y1, calls) in
  let d' := {| position := {| vx := px; vy := py; vz := vz (position d) |};
               speed := speed d; wobbleOffset := wobbleOffset d;
               wobbleSpeed := wobbleSpeed d; color := color d |} in
  let x := (px + sin (time * wobbleSpeed d + wobbleOffset d) * 0.5)%R in
  (d', calls,
   {| shownAt := {| vx := x; vy := py; vz := vz (position d) |};
      shownScale := 0.7;
      shownColor := color d |}).

(** The [useFrame] callback with the mesh mounted: every balloon in turn. *)
Fixpoint useFrame (random : Random) (time : R) (data : list Balloon) (calls : nat)
  : list Balloon * nat * list MeshInstance :=
  match data with
  | [] => ([], calls, [])
  | d :: rest =>
      let '(d', calls, shown) := moveBalloon random time d calls in
      let '(rest', calls, shownRest) := useFrame random time rest calls in
      (d' :: rest', calls, shown :: shownRest)
  end.

(** The [data] and the count of draws after successive frames at the given
    elapsed times. *)
Fixpoint useFrames (random : Random) (times : list R) (data : list Balloon) (calls : nat)
  : list Balloon * nat :=
  match times with
  | [] => (data, calls)
  | time :: times' =>
      let '(data', calls', _) := useFrame random time data calls in
      useFrames random times' data' calls'
  end.

(** A balloon strictly above the floor of the box and off its far faces. *)
Definition inFlight (d : Balloon) : Prop :=
  (- 20 <= vx (position d) < 20)%R ∧
  (- 50 < vy (position d) <= 25)%R ∧
  (- 10 <= vz (position d) < 10)%R ∧
  (0.2 <= speed d < 0.5)%R.

(** The frame restarts the balloon. *)
Definition restarts (d : Balloon) : Prop := (vy (position d) + speed d > 25)%R.

(** ** What the frames keep and change *)

(** What a frame never changes of a balloon. *)
Definition fixedPart (d : Balloon) : R * R * R * R * Hsl :=
  (vz (position d), speed d, wobbleOffset d, wobbleSpeed d, color d).

(** The box the balloons live in, its faces included. *)
Definition inBox (d : Balloon) : Prop :=
  (- 20 <= vx (position d) <= 20)%R ∧
  (- 50 <= vy (position d) <= 25)%R ∧
  (- 10 <= vz (position d) <= 10)%R ∧
  (0.2 <= speed d <= 0.5)%R.

(** How the instance drawn at elapsed time [time] relates to its balloon:
    the wobble is added to its x. *)
Definition shows (time : R) (d : Balloon) (shown : MeshInstance) : Prop :=
  vx (shownAt shown) =
    (vx (position d) + sin (time * wobbleSpeed d + wobbleOffset d) * 0.5)%R ∧
  vy (shownAt shown) = vy (position d) ∧
  vz (shownAt shown) = vz (position d) ∧
  shownScale shown = 0.7%R ∧
  shownColor shown = color d.

(** One frame of one balloon: it rises by its speed, or restarts below the
    screen when that would take it above 25. *)
Definition flies (d d' : Balloon) : Prop :=
  fixedPart d' = fixedPart d ∧
  ((¬ restarts d ∧
    vy (position d') = (vy (position d) + speed d)%R ∧
    vx (position d') = vx (position d)) ∨
   (restarts d ∧
    (- 30 <= vy (position d') <= - 20)%R ∧ (- 20 <= vx (position d') <= 20)%R)).

(** Balloon [i] restarts in one of the frames. *)
Fixpoint restartsDuring (random : Random) (times : list R) (data : list Balloon)
    (calls : nat) (i : nat) : Prop :=
  match times with
  | [] => False
  | time :: times' =>
      (∃ d, data !! i = Some d ∧ restarts d) ∨
      restartsDuring random times'
        (useFrame random time data calls).1.1
        (useFrame random time data calls).1.2 i
  end.

End BalloonInstances.

(* ===================================================================== *)
(** * Properties *)
(* ===================================================================== *)

Import HandManager.

(** Case analysis on every buffer of at most three labels. *)
Ltac enum_buffer buffer H :=
  destruct buffer as [|[] [|[] [|[] [|? ?]]]];
  simpl in H; try (exfalso; lia); clear H.

Lemma all_gestures (g : GestureType) : g ∈ allGestures.
Proof. destruct g; unfold allGestures; set_solver. Qed.

Lemma lookup_21 (lm : list Landmark) (k : nat) :
  length lm = 21 → k < 21 → ∃ p, lm !! k = Some p.
Proof.
  intros Hlen Hk. apply lookup_lt_is_Some. lia.
Qed.

Lemma fingerStates_total (lm : list Landmark) :
  length lm = 21 → ∃ f, fingerStates lm = Some f.
Proof.
  intros Hlen.
  unfold fingerStates, isFingerOpen.
  repeat match goal with
  | |- context [lm !! ?k] =>
      let p := fresh "p" in let E := fresh "E" in
      destruct (lookup_21 lm k Hlen ltac:(lia)) as [p E]; rewrite !E; clear E
  end.
  simpl. eexists. reflexivity.
Qed.

Lemma firstMatch_first (rules : list Rule) (f : Fingers) (n : nat) (r : Rule) :
  rules !! n = Some r → matches f r = true →
  (∀ m r', m < n → rules !! m = Some r' → matches f r' = false) →
  firstMatch rules f = label r.
Proof.
  revert n. induction rules as [|r0 rules IH]; intros n Hn Hr Hearlier; [discriminate|].
  destruct n as [|n]; simpl in *.
  - injection Hn as ->. rewrite Hr. reflexivity.
  - rewrite (Hearlier 0 r0 ltac:(lia) eq_refl).
    apply (IH n Hn Hr). intros m r' Hm Hr'. apply (Hearlier (S m) r' ltac:(lia) Hr').
Qed.

Lemma firstMatch_none (rules : list Rule) (f : Fingers) :
  (∀ r, r ∈ rules → matches f r = false) → firstMatch rules f = RESET.
Proof.
  induction rules as [|r0 rules IH]; intros Hnone; [reflexivity|].
  simpl. rewrite (Hnone r0) by left. apply IH. intros r Hr. apply Hnone. right. exact Hr.
Qed.

(** C1. The classifier is the first-match evaluation of the ordered rule
    list LOVE, THREE, THREE, TWO, TWO, ONE with default RESET: no hand
    gives RESET, a hand of 21 landmarks gives the label of the first rule
    its five finger-open booleans satisfy (an earlier rule that matches
    wins over every later one, RESET when none matches), and every one of
    the 2^5 combinations receives exactly one of the five labels. *)
Theorem classifier_ordered_rules :
  (∀ f : Fingers, classifyFingers f = classifySpec (Some f)) ∧
  detectGesture [] = Some (classifySpec None) ∧
  (∀ lm rest, length lm = 21 →
     ∃ f, fingerStates lm = Some f ∧
          detectGesture (lm :: rest) = Some (classifySpec (Some f))) ∧
  (∀ f : Fingers, exists! g : GestureType, classifyFingers f = g ∧ g ∈ allGestures) ∧
  (∀ (f : Fingers) (n : nat) (r : Rule),
     orderedRules !! n = Some r → matches f r = true →
     (∀ m r', m < n → orderedRules !! m = Some r' → matches f r' = false) →
     classifyFingers f = label r) ∧
  (∀ f : Fingers,
     (∀ r, r ∈ orderedRules → matches f r = false) → classifyFingers f = RESET).
Proof.
  assert (Hspec : ∀ f : Fingers, classifyFingers f = classifySpec (Some f)).
  { intros [[] [] [] [] []]; reflexivity. }
  split; [exact Hspec|]. split; [reflexivity|]. split; [|split; [|split]].
  - intros lm rest Hlen.
    destruct (fingerStates_total lm Hlen) as [f Hf].
    exists f. split; [exact Hf|].
    unfold detectGesture. simpl. rewrite Hf. simpl. now rewrite Hspec.
  - intros f. exists (classifyFingers f). split.
    + split; [reflexivity|]. apply all_gestures.
    + intros g [Hg _]. exact Hg.
  - intros f n r Hn Hr Hearlier. rewrite Hspec.
    apply (firstMatch_first orderedRules f n r Hn Hr Hearlier).
  - intros f Hnone. rewrite Hspec. apply firstMatch_none. exact Hnone.
Qed.

(** A hand of 21 landmarks is classified by the rule list. *)
Lemma classifier_ordered_rules_witness :
  ∃ f, fingerStates pointingHand = Some f ∧
       detectGesture [pointingHand] = Some (classifySpec (Some f)).
Proof.
  exact (proj1 (proj2 (proj2 classifier_ordered_rules)) pointingHand [] eq_refl).
Defined.

(** The second TWO rule aside, TWO needs the thumb closed: with thumb, index
    and middle open and ring and pinky closed the earlier THREE rule wins. *)
Theorem two_only_with_thumb_closed (f : Fingers) :
  (classifyFingers f = TWO ↔
     (thumbOpen f = false ∧ indexOpen f = true ∧ middleOpen f = true ∧
      ringOpen f = false ∧ pinkyOpen f = false) ∨
     (thumbOpen f = true ∧ indexOpen f = true ∧ middleOpen f = false ∧
      ringOpen f = false ∧ pinkyOpen f = false)) ∧
  classifyFingers {| thumbOpen := true; indexOpen := true; middleOpen := true;
                     ringOpen := false; pinkyOpen := false |} = THREE.
Proof.
  split; [|reflexivity].
  destruct f as [[] [] [] [] []]; cbn; split; intros H;
    try discriminate; try tauto;
    try (destruct H as [(? & ? & ? & ? & ?) | (? & ? & ? & ? & ?)]; discriminate).
Qed.

(* --------------------------------------------------------------------- *)
(** ** Finger states *)
(* --------------------------------------------------------------------- *)

(** The product of two doubles does not depend on the order of the
    factors. *)
Lemma SFmul_comm (prec emax : Z) (a b : spec_float) :
  SFmul prec emax a b = SFmul prec emax b a.
Proof.
  destruct a as [sa|sa| |sa ma ea], b as [sb|sb| |sb mb eb]; simpl;
    rewrite ?(xorb_comm sa sb), ?(Pos.mul_comm ma mb), ?(Z.add_comm ea eb); reflexivity.
Qed.

Lemma float_mul_comm (a b : float) : (a * b = b * a)%float.
Proof.
  apply Prim2SF_inj. rewrite !mul_spec. apply SFmul_comm.
Qed.

Lemma distSq_squaredDistance (p q : Landmark) : distSq p q = squaredDistance p q.
Proof. reflexivity. Qed.

Lemma gtb_exceeds (a b k : float) : gtb a (b * k)%float = true ↔ exceeds a (k * b)%float.
Proof. unfold gtb, exceeds. rewrite (float_mul_comm b k). reflexivity. Qed.

Lemma isFingerOpen_spec (lm : list Landmark) (tipIdx pipIdx : nat) (wrist tip pip : Landmark) :
  lm !! 0 = Some wrist → lm !! tipIdx = Some tip → lm !! pipIdx = Some pip →
  ∃ o, isFingerOpen lm tipIdx pipIdx = Some o ∧ (o = true ↔ fingerOpenSpec lm tipIdx pipIdx).
Proof.
  intros Hw Ht Hp. unfold isFingerOpen. rewrite Hw, Ht, Hp. simpl.
  eexists. split; [reflexivity|].
  rewrite gtb_exceeds, !distSq_squaredDistance.
  unfold fingerOpenSpec. split.
  - intros H. exists wrist, tip, pip. repeat split; assumption.
  - intros (w' & t' & p' & Hw' & Ht' & Hp' & H). simplify_eq. exact H.
Qed.

(** C3. On a hand of 21 landmarks the finger states are computed, and each
    of index, middle, ring, pinky (tip/pip 8/6, 12/10, 16/14, 20/18) is
    open exactly when squaredDistance(wrist, tip) exceeds 1.1 times
    squaredDistance(wrist, pip); the thumb is open exactly when
    squaredDistance(thumb tip 4, index MCP 5) exceeds 0.6 times the squared
    palm scale squaredDistance(wrist 0, index MCP 5).  The numbers are
    doubles and every operation is the rounded one. *)
Theorem finger_open_thresholds (lm : list Landmark) :
  length lm = 21 →
  ∃ f : Fingers,
    fingerStates lm = Some f ∧
    (indexOpen f = true ↔ fingerOpenSpec lm 8 6) ∧
    (middleOpen f = true ↔ fingerOpenSpec lm 12 10) ∧
    (ringOpen f = true ↔ fingerOpenSpec lm 16 14) ∧
    (pinkyOpen f = true ↔ fingerOpenSpec lm 20 18) ∧
    (thumbOpen f = true ↔ thumbOpenSpec lm).
Proof.
  intros Hlen.
  destruct (lookup_21 lm 0 Hlen ltac:(lia)) as [wrist Hw].
  destruct (lookup_21 lm 4 Hlen ltac:(lia)) as [thumbTip H4].
  destruct (lookup_21 lm 5 Hlen ltac:(lia)) as [indexMcp H5].
  destruct (lookup_21 lm 6 Hlen ltac:(lia)) as [p6 H6].
  destruct (lookup_21 lm 8 Hlen ltac:(lia)) as [p8 H8].
  destruct (lookup_21 lm 10 Hlen ltac:(lia)) as [p10 H10].
  destruct (lookup_21 lm 12 Hlen ltac:(lia)) as [p12 H12].
  destruct (lookup_21 lm 14 Hlen ltac:(lia)) as [p14 H14].
  destruct (lookup_21 lm 16 Hlen ltac:(lia)) as [p16 H16].
  destruct (lookup_21 lm 18 Hlen ltac:(lia)) as [p18 H18].
  destruct (lookup_21 lm 20 Hlen ltac:(lia)) as [p20 H20].
  destruct (isFingerOpen_spec lm 8 6 _ _ _ Hw H8 H6) as (oi & Ei & Hi).
  destruct (isFingerOpen_spec lm 12 10 _ _ _ Hw H12 H10) as (om & Em & Hm).
  destruct (isFingerOpen_spec lm 16 14 _ _ _ Hw H16 H14) as (or & Er & Hr).
  destruct (isFingerOpen_spec lm 20 18 _ _ _ Hw H20 H18) as (op & Ep & Hp).
  unfold fingerStates. rewrite Hw, H5, Ei, Em, Er, Ep, H4. simpl.
  eexists. split; [reflexivity|]. simpl.
  repeat split; try (apply Hi || apply Hm || apply Hr || apply Hp).
  - rewrite gtb_exceeds, !distSq_squaredDistance.
    intros H. exists wrist, thumbTip, indexMcp. repeat split; try assumption.
  - intros (w' & t' & m' & Hw' & Ht' & Hm' & H). simplify_eq. cbv zeta in H.
    rewrite gtb_exceeds, !distSq_squaredDistance. exact H.
Qed.

(** On the boundary hand the rounded squared distance of the tip is the
    double 1.1 itself, which does not exceed 1.1 times 1: the index finger
    is closed. *)
Lemma finger_open_thresholds_witness :
  ∃ f : Fingers,
    fingerStates boundaryHand = Some f ∧
    (indexOpen f = true ↔ fingerOpenSpec boundaryHand 8 6) ∧
    (thumbOpen f = true ↔ thumbOpenSpec boundaryHand) ∧
    indexOpen f = false.
Proof.
  destruct (finger_open_thresholds boundaryHand eq_refl) as (f & Hf & Hi & _ & _ & _ & Ht).
  exists f. split; [exact Hf|]. split; [exact Hi|]. split; [exact Ht|].
  vm_compute in Hf. injection Hf as <-. reflexivity.
Defined.

(** The pointing hand is classified ONE from its landmarks. *)
Example pointing_hand_is_ONE : detectGesture [pointingHand] = Some ONE.
Proof. vm_compute. reflexivity. Qed.

(* --------------------------------------------------------------------- *)
(** ** Debouncer *)
(* --------------------------------------------------------------------- *)

(** ** Pushing *)

Lemma pushGesture_length (buffer : list GestureType) (g : GestureType) :
  length buffer ≤ BUFFER_SIZE → length (pushGesture buffer g) ≤ BUFFER_SIZE.
Proof.
  intros H. unfold pushGesture, BUFFER_SIZE in *.
  case_bool_decide as Hlen; rewrite ?length_tl, ?length_app in *; simpl in *; lia.
Qed.

Lemma pushGesture_nonempty (buffer : list GestureType) (g : GestureType) :
  length buffer ≤ BUFFER_SIZE → 0 < length (pushGesture buffer g).
Proof.
  intros H. unfold pushGesture, BUFFER_SIZE in *.
  case_bool_decide as Hlen; rewrite ?length_tl, ?length_app in *; simpl in *; lia.
Qed.

Lemma pushGesture_keeps_newest (buffer : list GestureType) (g : GestureType) :
  length buffer ≤ BUFFER_SIZE →
  pushGesture buffer g =
  drop (length (buffer ++ [g]) - BUFFER_SIZE) (buffer ++ [g]).
Proof.
  intros H. unfold pushGesture, BUFFER_SIZE in *.
  destruct buffer as [|a [|b [|c [|d ?]]]]; simpl in *; try lia; reflexivity.
Qed.

(** ** The mode *)

Lemma modeCheck_sound (m : GestureType) (buffer : list GestureType) :
  modeCheck m buffer = true → isModeFirstSeen m buffer.
Proof.
  unfold modeCheck. rewrite andb_true_iff, bool_decide_eq_true, forallb_forall.
  intros [Hpos Hall]. split; [exact Hpos|].
  intros g. specialize (Hall g).
  assert (Hg : modeCheck1 m buffer g = true).
  { apply Hall. apply list_elem_of_In, all_gestures. }
  unfold modeCheck1 in Hg.
  rewrite andb_true_iff, !orb_true_iff, negb_true_iff, !bool_decide_eq_true,
    bool_decide_eq_false in Hg.
  destruct Hg as [Hle Hcases]. split; [exact Hle|].
  intros Hne Heq. destruct Hcases as [[Hgm | Hneq] | Hfirst].
  - contradiction.
  - contradiction.
  - destruct (firstSeen m buffer) as [i|]; [|discriminate].
    destruct (firstSeen g buffer) as [j|]; [|discriminate].
    apply bool_decide_eq_true in Hfirst. eauto.
Qed.

(** The first-seen mode is unique. *)
Lemma isModeFirstSeen_unique (m1 m2 : GestureType) (buffer : list GestureType) :
  isModeFirstSeen m1 buffer → isModeFirstSeen m2 buffer → m1 = m2.
Proof.
  intros [_ H1] [_ H2].
  destruct (decide (m1 = m2)) as [|Hne]; [assumption|exfalso].
  destruct (H1 m2) as [Hle1 Htie1], (H2 m1) as [Hle2 Htie2].
  assert (Heq : occurrences m2 buffer = occurrences m1 buffer) by lia.
  destruct (Htie1 (not_eq_sym Hne) Heq) as (i & j & Hi & Hj & Hij).
  destruct (Htie2 Hne (eq_sym Heq)) as (i' & j' & Hi' & Hj' & Hij').
  rewrite Hi in Hj'. rewrite Hj in Hi'. simplify_eq. lia.
Qed.

(** On a buffer of one to three labels the running scan finds the
    first-seen mode and its number of occurrences, whatever label it starts
    from. *)
Lemma modeOf_small (buffer : list GestureType) (lastEmitted : GestureType) :
  0 < length buffer ≤ BUFFER_SIZE →
  isModeFirstSeen (smoothGesture (modeOf buffer lastEmitted)) buffer ∧
  maxCount (modeOf buffer lastEmitted) =
    occurrences (smoothGesture (modeOf buffer lastEmitted)) buffer.
Proof.
  unfold BUFFER_SIZE. intros [Hpos Hlen].
  assert (Hlen' : length buffer ≤ 3 ∧ 0 < length buffer) by lia. clear Hpos Hlen.
  destruct buffer as [|[] [|[] [|[] [|? ?]]]]; simpl in Hlen';
    try (exfalso; lia); clear Hlen';
    (split; [apply modeCheck_sound; vm_compute; reflexivity | vm_compute; reflexivity]).
Qed.

(** ** Emission *)

(** [smooth] unfolded: the buffer is always pushed, and the last emitted
    label and the output change together. *)
Lemma smooth_unfold (s : Smoothing) (g : GestureType) (hands : nat) :
  let buffer := pushGesture (gestureBuffer s) g in
  let t := modeOf buffer (lastEmittedGesture s) in
  smooth s g hands =
  if bool_decide (BUFFER_SIZE < 2 * maxCount t ∧ smoothGesture t ≠ lastEmittedGesture s)
  then ({| gestureBuffer := buffer; lastEmittedGesture := smoothGesture t |},
        Some {| gesture := smoothGesture t; isTracking := bool_decide (0 < hands) |})
  else ({| gestureBuffer := buffer; lastEmittedGesture := lastEmittedGesture s |}, None).
Proof.
  intros buffer t. unfold smooth, overHalf. fold buffer. fold t.
  repeat case_bool_decide; try reflexivity; tauto.
Qed.

(** The number of hands only reaches the [isTracking] field. *)
Lemma smooth_hands (s : Smoothing) (g : GestureType) (hands : nat) :
  (smooth s g hands).1 = (smooth s g 0).1 ∧
  gesture <$> (smooth s g hands).2 = gesture <$> (smooth s g 0).2.
Proof.
  rewrite !smooth_unfold. cbv zeta. case_bool_decide; split; reflexivity.
Qed.

(** ** What reachable states satisfy *)

Lemma settledb_spec (s : Smoothing) : settledb s = true ↔ settled s.
Proof.
  unfold settledb, settled.
  rewrite andb_true_iff, bool_decide_eq_true, forallb_forall.
  split; intros [Hlen H]; (split; [exact Hlen|]).
  - intros g Hg. specialize (H g (proj1 (list_elem_of_In _ _) (all_gestures g))).
    rewrite orb_true_iff, !bool_decide_eq_true in H. destruct H; [lia|assumption].
  - intros g _. rewrite orb_true_iff, !bool_decide_eq_true.
    destruct (decide (occurrences g (gestureBuffer s) < 2)); [left; assumption|].
    right. apply H. lia.
Qed.

Lemma sustainedb_spec (g : GestureType) (s : Smoothing) :
  sustainedb g s = true ↔ sustained g s.
Proof.
  unfold sustainedb, sustained.
  rewrite !andb_true_iff, !bool_decide_eq_true. tauto.
Qed.

Lemma settled_initial : settled initialSmoothing.
Proof. apply settledb_spec. reflexivity. Qed.

Lemma smooth_settled (s : Smoothing) (g : GestureType) (hands : nat) :
  length (gestureBuffer s) ≤ BUFFER_SIZE → settled (smooth s g hands).1.
Proof.
  destruct (smooth_hands s g hands) as [-> _].
  destruct s as [buffer last]. unfold BUFFER_SIZE. simpl. intros H.
  enum_buffer buffer H; destruct last, g; apply settledb_spec; vm_compute; reflexivity.
Qed.

Lemma smoothAll_settled (frames : list (GestureType * nat)) (s : Smoothing) :
  settled s → settled (smoothAll s frames).1.
Proof.
  revert s. induction frames as [|[g hands] frames IH]; intros s Hs; [exact Hs|].
  simpl. pose proof (smooth_settled s g hands (proj1 Hs)) as H1.
  destruct (smooth s g hands) as [s1 out]. specialize (IH s1 H1).
  destruct (smoothAll s1 frames) as [s2 outs]. exact IH.
Qed.

Lemma emitsRawCheck_all (s : Smoothing) (g : GestureType) :
  length (gestureBuffer s) ≤ BUFFER_SIZE → emitsRawCheck s g = true.
Proof.
  destruct s as [buffer last]. unfold BUFFER_SIZE. simpl. intros H.
  enum_buffer buffer H; destruct last, g; vm_compute; reflexivity.
Qed.

Lemma smooth_emits_raw (s s' : Smoothing) (g : GestureType) (hands : nat) (e : HandState) :
  settled s → smooth s g hands = (s', Some e) → gesture e = g ∧ sustained g s'.
Proof.
  intros Hs Hsm.
  pose proof (emitsRawCheck_all s g (proj1 Hs)) as Hc.
  destruct (smooth_hands s g hands) as [H1 H2]. rewrite Hsm in H1, H2. simpl in H1, H2.
  unfold emitsRawCheck in Hc. rewrite (proj2 (settledb_spec s) Hs) in Hc. simpl in Hc.
  rewrite <- H1 in Hc.
  destruct (smooth s g 0).2 as [e0|]; [|discriminate].
  simpl in H2. injection H2 as H2.
  rewrite andb_true_iff, bool_decide_eq_true, sustainedb_spec in Hc.
  rewrite H2. exact Hc.
Qed.

Lemma quietCheck_all (s : Smoothing) (g : GestureType) :
  length (gestureBuffer s) ≤ BUFFER_SIZE → quietCheck s g = true.
Proof.
  destruct s as [buffer last]. unfold BUFFER_SIZE. simpl. intros H.
  enum_buffer buffer H; destruct last, g; vm_compute; reflexivity.
Qed.

Lemma smooth_sustained (s : Smoothing) (g : GestureType) (hands : nat) :
  sustained g s → (smooth s g hands).2 = None ∧ sustained g (smooth s g hands).1.
Proof.
  intros Hs. pose proof (quietCheck_all s g (proj1 Hs)) as Hc.
  destruct (smooth_hands s g hands) as [H1 H2].
  unfold quietCheck in Hc. rewrite (proj2 (sustainedb_spec g s) Hs) in Hc. simpl in Hc.
  rewrite andb_true_iff, bool_decide_eq_true, sustainedb_spec in Hc.
  destruct Hc as [Hnone Hsus]. rewrite H1. split; [|exact Hsus].
  rewrite Hnone in H2. destruct (smooth s g hands).2; [discriminate|reflexivity].
Qed.

Lemma smoothAll_sustained (more : list (GestureType * nat)) (g : GestureType) (s : Smoothing) :
  sustained g s → Forall (λ f, f.1 = g) more →
  Forall (λ out, out = None) (smoothAll s more).2.
Proof.
  revert s. induction more as [|[g' hands] more IH]; intros s Hs Hall; [constructor|].
  apply Forall_cons in Hall as [Hg Hall]. simpl in Hg. subst g'.
  simpl. destruct (smooth_sustained s g hands Hs) as [Hnone Hs1].
  destruct (smooth s g hands) as [s1 out]. simpl in Hnone, Hs1. subst out.
  specialize (IH s1 Hs1 Hall).
  destruct (smoothAll s1 more) as [s2 outs]. simpl in *. constructor; [reflexivity|exact IH].
Qed.

(** C2. The buffer never holds more than 3 labels.  One call of the
    debouncer: the raw label is pushed into the buffer of capacity 3 with
    the oldest label evicted on overflow; the label the scan of the code
    settles on ([smoothGesture] after the [forEach]) is the modal label with
    first-seen-wins ties, and its [maxCount] is the number of its
    occurrences; a new state (that label, isTracking = a hand is present)
    is emitted exactly when the modal count exceeds half the capacity and
    the modal label differs from the label last emitted, and otherwise
    nothing is emitted and the last emitted label stays.  Hence an emitted
    label fills at least two slots, and after an emission further frames
    with the same raw label emit nothing. *)
Theorem debouncer_update :
  (∀ frames : list (GestureType * nat),
     length (gestureBuffer (smoothAll initialSmoothing frames).1) ≤ BUFFER_SIZE) ∧
  (∀ (s : Smoothing) (g : GestureType) (hands : nat),
     length (gestureBuffer s) ≤ BUFFER_SIZE →
     let buffer := pushGesture (gestureBuffer s) g in
     let scan := modeOf buffer (lastEmittedGesture s) in
     let m := smoothGesture scan in
     buffer = drop (length (gestureBuffer s ++ [g]) - BUFFER_SIZE) (gestureBuffer s ++ [g]) ∧
     length buffer ≤ BUFFER_SIZE ∧
     isModeFirstSeen m buffer ∧
     maxCount scan = occurrences m buffer ∧
     smooth s g hands =
     if bool_decide (BUFFER_SIZE < 2 * occurrences m buffer ∧ m ≠ lastEmittedGesture s)
     then ({| gestureBuffer := buffer; lastEmittedGesture := m |},
           Some {| gesture := m; isTracking := bool_decide (0 < hands) |})
     else ({| gestureBuffer := buffer; lastEmittedGesture := lastEmittedGesture s |},
           None)) ∧
  (∀ (s s' : Smoothing) (g : GestureType) (hands : nat) (e : HandState),
     length (gestureBuffer s) ≤ BUFFER_SIZE →
     smooth s g hands = (s', Some e) →
     2 ≤ occurrences (gesture e) (gestureBuffer s')) ∧
  (∀ (frames more : list (GestureType * nat)) (g : GestureType) (hands : nat)
     (s' : Smoothing) (e : HandState),
     smooth (smoothAll initialSmoothing frames).1 g hands = (s', Some e) →
     Forall (λ f, f.1 = g) more →
     gesture e = g ∧ Forall (λ out, out = None) (smoothAll s' more).2).
Proof.
  assert (Hstep : ∀ (s : Smoothing) (g : GestureType) (hands : nat),
     length (gestureBuffer s) ≤ BUFFER_SIZE →
     let buffer := pushGesture (gestureBuffer s) g in
     let scan := modeOf buffer (lastEmittedGesture s) in
     let m := smoothGesture scan in
     isModeFirstSeen m buffer ∧
     maxCount scan = occurrences m buffer ∧
     smooth s g hands =
     if bool_decide (BUFFER_SIZE < 2 * occurrences m buffer ∧ m ≠ lastEmittedGesture s)
     then ({| gestureBuffer := buffer; lastEmittedGesture := m |},
           Some {| gesture := m; isTracking := bool_decide (0 < hands) |})
     else ({| gestureBuffer := buffer; lastEmittedGesture := lastEmittedGesture s |},
           None)).
  { intros s g hands Hlen buffer scan m.
    destruct (modeOf_small buffer (lastEmittedGesture s)) as [Hmode Hcount].
    { split; [apply pushGesture_nonempty | apply pushGesture_length]; exact Hlen. }
    split; [exact Hmode|]. split; [exact Hcount|].
    rewrite smooth_unfold. cbv zeta. fold buffer. fold scan. fold m.
    unfold scan in Hcount. fold scan in Hcount. rewrite Hcount. reflexivity. }
  split; [|split; [|split]].
  - intros frames. apply (smoothAll_settled frames initialSmoothing settled_initial).
  - intros s g hands Hlen buffer scan m.
    split; [apply pushGesture_keeps_newest; exact Hlen|].
    split; [apply pushGesture_length; exact Hlen|].
    apply Hstep. exact Hlen.
  - intros s s' g hands e Hlen Hsm.
    destruct (Hstep s g hands Hlen) as (_ & _ & Heq). rewrite Hsm in Heq.
    unfold BUFFER_SIZE in Heq.
    case_bool_decide as Hc; [|discriminate].
    injection Heq as -> ->. simpl. lia.
  - intros frames more g hands s' e Hsm Hmore.
    pose proof (smoothAll_settled frames initialSmoothing settled_initial) as Hset.
    destruct (smooth_emits_raw _ _ _ _ _ Hset Hsm) as [Hg Hsus].
    split; [exact Hg|].
    apply (smoothAll_sustained more g s' Hsus Hmore).
Qed.

(** Two consecutive frames of ONE from the start emit ONE once; two more
    frames of ONE emit nothing. *)
Lemma debouncer_update_witness :
  smooth (smoothAll initialSmoothing [(ONE, 1)]).1 ONE 1 =
    ({| gestureBuffer := [ONE; ONE]; lastEmittedGesture := ONE |},
     Some {| gesture := ONE; isTracking := true |}) ∧
  Forall (λ out : option HandState, out = None)
    (smoothAll {| gestureBuffer := [ONE; ONE]; lastEmittedGesture := ONE |}
       [(ONE, 1); (ONE, 1)]).2.
Proof.
  assert (H : smooth (smoothAll initialSmoothing [(ONE, 1)]).1 ONE 1 =
    ({| gestureBuffer := [ONE; ONE]; lastEmittedGesture := ONE |},
     Some {| gesture := ONE; isTracking := true |})) by reflexivity.
  split; [exact H|].
  refine (proj2 (proj2 (proj2 (proj2 debouncer_update))
            [(ONE, 1)] [(ONE, 1); (ONE, 1)] ONE 1 _ _ H _)).
  repeat constructor.
Defined.


(** With four slots the running scan would not be first-seen-wins: the
    property rests on the capacity of three. *)
Remark modeOf_four_slots :
  smoothGesture (modeOf [ONE; TWO; TWO; ONE] RESET) = TWO ∧
  occurrences ONE [ONE; TWO; TWO; ONE] = occurrences TWO [ONE; TWO; TWO; ONE] ∧
  firstSeen ONE [ONE; TWO; TWO; ONE] = Some 0 ∧
  firstSeen TWO [ONE; TWO; TWO; ONE] = Some 1.
Proof. repeat split; reflexivity. Qed.

(** The flicker of the specification: ONE, ONE, TWO, ONE, ONE emits ONE
    once and never TWO. *)
Example flicker_never_emits_TWO :
  (smoothAll initialSmoothing [(ONE, 1); (ONE, 1); (TWO, 1); (ONE, 1); (ONE, 1)]).2 =
  [None; Some {| gesture := ONE; isTracking := true |}; None; None; None].
Proof. reflexivity. Qed.

(* --------------------------------------------------------------------- *)
(** ** Target field generators *)
(* --------------------------------------------------------------------- *)

Import ParticleUtils.

Lemma length_insert3 i v0 v1 v2 (l : list R) : length (insert3 i v0 v1 v2 l) = length l.
Proof. unfold insert3. rewrite !length_insert. reflexivity. Qed.

Lemma insert3_lookup_ne i v0 v1 v2 (l : list R) k :
  k < i * 3 ∨ i * 3 + 3 ≤ k → insert3 i v0 v1 v2 l !! k = l !! k.
Proof.
  intros H. unfold insert3. rewrite !list_lookup_insert_ne by lia. reflexivity.
Qed.

Lemma insert3_lookup i v0 v1 v2 (l : list R) (axis : nat) :
  i * 3 + 2 < length l → axis < 3 →
  insert3 i v0 v1 v2 l !! (i * 3 + axis) =
  Some (match axis with 0 => v0 | 1 => v1 | _ => v2 end).
Proof.
  intros Hlen Ha. unfold insert3.
  destruct axis as [|[|[|?]]]; try lia.
  - rewrite Nat.add_0_r, !list_lookup_insert_ne by lia.
    apply list_lookup_insert_eq. lia.
  - rewrite list_lookup_insert_ne by lia.
    apply list_lookup_insert_eq. rewrite length_insert. lia.
  - apply list_lookup_insert_eq. rewrite !length_insert. lia.
Qed.

(** *** The cloud loop *)

Lemma length_newFloat32Array n : length (newFloat32Array n) = n.
Proof. apply length_replicate. Qed.

Lemma cloudStep_unfold random positions colors calls i :
  cloudStep random (positions, colors, calls) i =
  (insert3 i (cloudPoint random calls 0) (cloudPoint random calls 1)
             (cloudPoint random calls 2) positions,
   insert3 i 0.1 0.15 0.2 colors, calls + 3).
Proof. reflexivity. Qed.

Lemma foldl_snoc {A B} (f : A → B → A) (a : A) (l : list B) (x : B) :
  foldl f a (l ++ [x]) = f (foldl f a l) x.
Proof. rewrite foldl_app. reflexivity. Qed.

(** After [n] turns of the cloud loop. *)
Lemma cloudLoop_inv random calls (positions colors : list R) n :
  ∃ positions' colors',
    foldl (cloudStep random) (positions, colors, calls) (seq 0 n) =
      (positions', colors', calls + 3 * n) ∧
    length positions' = length positions ∧
    length colors' = length colors ∧
    ∀ i axis, i < n → axis < 3 →
       (i * 3 + 2 < length positions →
        positions' !! (i * 3 + axis) = Some (cloudPoint random (calls + 3 * i) axis)) ∧
       (i * 3 + 2 < length colors →
        colors' !! (i * 3 + axis) =
        Some (match axis with 0 => 0.1 | 1 => 0.15 | _ => 0.2 end)%R).
Proof.
  induction n as [|n IH].
  - exists positions, colors. simpl. rewrite Nat.add_0_r.
    repeat split; try reflexivity; intros; lia.
  - destruct IH as (p1 & c1 & Hfold & Hlp & Hlc & Hall).
    rewrite seq_S, foldl_snoc, Hfold. change (0 + n) with n.
    rewrite cloudStep_unfold.
    eexists _, _. split; [f_equal; lia|].
    rewrite !length_insert3. split; [exact Hlp|]. split; [exact Hlc|].
    intros i axis Hi Ha.
    destruct (decide (i = n)) as [->|Hne].
    + split; intros Hlen.
      * rewrite insert3_lookup by (rewrite ?Hlp; lia).
        destruct axis as [|[|[|?]]]; try lia; reflexivity.
      * apply insert3_lookup; [rewrite Hlc; exact Hlen | exact Ha].
    + rewrite !insert3_lookup_ne by lia. apply Hall; [lia | exact Ha].
Qed.

Lemma generateCloudParticles_spec random calls particleCount :
  let d := (generateCloudParticles random calls particleCount).1 in
  (generateCloudParticles random calls particleCount).2 = calls + 3 * particleCount ∧
  length (positions d) = particleCount * 3 ∧
  length (colors d) = particleCount * 3 ∧
  (∀ i, i < particleCount →
     colorOf d i = Some {| r := 0.1; g := 0.15; b := 0.2 |}) ∧
  (∀ i axis, i < particleCount → axis < 3 →
     positions d !! (i * 3 + axis) = Some (cloudPoint random (calls + 3 * i) axis)).
Proof.
  unfold generateCloudParticles.
  destruct (cloudLoop_inv random calls (newFloat32Array (particleCount * 3))
              (newFloat32Array (particleCount * 3)) particleCount)
    as (p' & c' & -> & Hlp & Hlc & Hall).
  rewrite length_newFloat32Array in Hlp, Hlc, Hall. simpl.
  split; [reflexivity|]. split; [exact Hlp|]. split; [exact Hlc|]. split.
  - intros i Hi. unfold colorOf. simpl.
    pose proof (proj2 (Hall i 0 Hi ltac:(lia)) ltac:(lia)) as H0.
    rewrite Nat.add_0_r in H0.
    rewrite H0, (proj2 (Hall i 1 Hi ltac:(lia))), (proj2 (Hall i 2 Hi ltac:(lia))) by lia.
    reflexivity.
  - intros i axis Hi Ha. apply (Hall i axis Hi Ha). lia.
Qed.

(** *** The pixel scan *)

Lemma scanStep_lit data validPixels pixelColors i :
  scanStep data (validPixels, pixelColors) i =
  if decide (lit data i)
  then (validPixels ++ [i], pixelColors ++ [normalizedColor data i])
  else (validPixels, pixelColors).
Proof.
  unfold scanStep, lit, normalizedColor.
  destruct (decide _) as [H|H]; repeat case_bool_decide; simpl; try reflexivity; tauto.
Qed.

Lemma scanLoop data validPixels pixelColors (l : list nat) :
  foldl (scanStep data) (validPixels, pixelColors) l =
  (validPixels ++ filter (lit data) l,
   pixelColors ++ (normalizedColor data <$> filter (lit data) l)).
Proof.
  revert validPixels pixelColors. induction l as [|i l IH]; intros v c; cbn [foldl].
  - rewrite filter_nil, fmap_nil, !app_nil_r. reflexivity.
  - rewrite scanStep_lit, filter_cons. destruct (decide (lit data i)).
    + rewrite IH. rewrite fmap_cons, <- !app_assoc. reflexivity.
    + apply IH.
Qed.

Lemma scanPixels_filter data w h :
  scanPixels data w h =
  (filter (lit data) (seq 0 (w * h)),
   normalizedColor data <$> filter (lit data) (seq 0 (w * h))).
Proof. unfold scanPixels. rewrite scanLoop. reflexivity. Qed.

(** *** The sampling loop *)

Lemma forEachIndex_S {S : Type} (body : S → nat → option S) (st : S) (n : nat) :
  forEachIndex body st (Datatypes.S n) = forEachIndex body st n ≫= λ st', body st' n.
Proof. unfold forEachIndex. rewrite seq_S, foldl_snoc. reflexivity. Qed.

Lemma at_index_Some {A : Type} (arr : list A) (idx : Z) (v : A) :
  at_index arr idx = Some v → ∃ s, arr !! s = Some v ∧ idx = Z.of_nat s.
Proof.
  unfold at_index. destruct (decide (0 ≤ idx)%Z) as [H|H]; [|discriminate].
  intros Hs. exists (Z.to_nat idx). split; [exact Hs | lia].
Qed.

Lemma sampleStep_Some random w h validPixels pixelColors scale positions colors calls i st' :
  sampleStep random w h validPixels pixelColors scale (positions, colors, calls) i = Some st' →
  ∃ s pixelIndex colorData,
    validPixels !! s = Some pixelIndex ∧ pixelColors !! s = Some colorData ∧
    st' = (insert3 i ((INR (pixelIndex mod w) - INR w / 2) * scale)
                     (- (INR (pixelIndex / w) - INR h / 2) * scale) 0 positions,
           insert3 i (r colorData) (g colorData) (b colorData) colors,
           calls + 1).
Proof.
  unfold sampleStep. cbv zeta.
  destruct (at_index validPixels _) as [pixelIndex|] eqn:E1; [|discriminate].
  destruct (at_index pixelColors _) as [colorData|] eqn:E2; [|discriminate].
  simpl. intros [= <-].
  apply at_index_Some in E1 as (s & Hs & Hidx).
  apply at_index_Some in E2 as (s' & Hs' & Hidx').
  assert (s' = s) as -> by lia.
  exists s, pixelIndex, colorData. repeat split; assumption.
Qed.

(** After [n] turns of the sampling loop: every particle sits on a pixel of
    [validPixels] and has the colour stored beside it. *)
Lemma sampleLoop_inv random w h validPixels pixelColors scale
    (positions colors : list R) calls n positions' colors' calls' :
  forEachIndex (sampleStep random w h validPixels pixelColors scale)
               (positions, colors, calls) n = Some (positions', colors', calls') →
  calls' = calls + n ∧
  length positions' = length positions ∧
  length colors' = length colors ∧
  ∀ i, i < n → i * 3 + 2 < length positions → i * 3 + 2 < length colors →
    ∃ s pixelIndex colorData,
      validPixels !! s = Some pixelIndex ∧ pixelColors !! s = Some colorData ∧
      positions' !! (i * 3) = Some ((INR (pixelIndex mod w) - INR w / 2) * scale)%R ∧
      positions' !! (i * 3 + 1) = Some (- (INR (pixelIndex / w) - INR h / 2) * scale)%R ∧
      positions' !! (i * 3 + 2) = Some 0%R ∧
      colors' !! (i * 3) = Some (r colorData) ∧
      colors' !! (i * 3 + 1) = Some (g colorData) ∧
      colors' !! (i * 3 + 2) = Some (b colorData).
Proof.
  revert positions' colors' calls'. induction n as [|n IH]; intros p' c' k'.
  - unfold forEachIndex. simpl. intros [= <- <- <-].
    repeat split; try lia.
  - rewrite forEachIndex_S.
    destruct (forEachIndex _ _ n) as [[[p1 c1] k1]|] eqn:E; [|discriminate].
    simpl. intros Hstep.
    destruct (IH p1 c1 k1 eq_refl) as (Hk & Hlp & Hlc & Hall).
    apply sampleStep_Some in Hstep as (s & pixelIndex & colorData & Hv & Hc & [= -> -> ->]).
    rewrite !length_insert3. repeat split; try assumption; try lia.
    intros i Hi Hpl Hcl.
    destruct (decide (i = n)) as [->|Hne].
    + exists s, pixelIndex, colorData.
      pose proof (insert3_lookup n ((INR (pixelIndex mod w) - INR w / 2) * scale)
                    (- (INR (pixelIndex / w) - INR h / 2) * scale) 0 p1) as HP.
      pose proof (insert3_lookup n (r colorData) (g colorData) (b colorData) c1) as HC.
      rewrite Hlp in HP. rewrite Hlc in HC.
      pose proof (HP 0 Hpl ltac:(lia)) as HP0. pose proof (HC 0 Hcl ltac:(lia)) as HC0.
      rewrite Nat.add_0_r in HP0, HC0.
      repeat split; try assumption;
        first [apply (HP 1); lia | apply (HP 2); lia | apply (HC 1); lia | apply (HC 2); lia].
    + destruct (Hall i ltac:(lia) Hpl Hcl) as (s0 & pi0 & cd0 & H1 & H2 & H3 & H4 & H5 & H6 & H7 & H8).
      exists s0, pi0, cd0. rewrite !insert3_lookup_ne by lia.
      repeat split; assumption.
Qed.

Lemma at_index_floor {A : Type} (arr : list A) (u : R) :
  (0 <= u < 1)%R → arr ≠ [] →
  ∃ v, at_index arr (Zfloor (u * INR (length arr))) = Some v.
Proof.
  intros Hu Hne.
  assert (Hlen : 0 < length arr) by (destruct arr; [congruence | simpl; lia]).
  assert (HR : (0 < INR (length arr))%R) by (apply lt_0_INR; lia).
  pose proof (Zfloor_bound (u * INR (length arr))) as [Hlo Hhi].
  assert (H0 : (0 ≤ Zfloor (u * INR (length arr)))%Z).
  { apply Zfloor_lub. simpl. nra. }
  assert (H1 : (Zfloor (u * INR (length arr)) < Z.of_nat (length arr))%Z).
  { apply lt_IZR. rewrite <- INR_IZR_INZ. nra. }
  unfold at_index. destruct (decide _) as [_|]; [|lia].
  apply lookup_lt_is_Some_2. lia.
Qed.

Lemma sampleLoop_total random w h validPixels pixelColors scale
    (positions colors : list R) calls n :
  (∀ k, 0 <= random k < 1)%R → validPixels ≠ [] →
  length pixelColors = length validPixels →
  ∃ result, forEachIndex (sampleStep random w h validPixels pixelColors scale)
                         (positions, colors, calls) n = Some result.
Proof.
  intros Hrand Hne Hlen. induction n as [|n [[[p1 c1] k1] IH]].
  - eexists. reflexivity.
  - rewrite forEachIndex_S, IH. simpl. unfold sampleStep. cbv zeta.
    destruct (at_index_floor validPixels (random k1) (Hrand k1) Hne) as [pixelIndex ->].
    assert (Hne' : pixelColors ≠ []) by (destruct pixelColors, validPixels; simpl in *; congruence).
    destruct (at_index_floor pixelColors (random k1) (Hrand k1) Hne') as [colorData Hc].
    rewrite Hlen in Hc. rewrite Hc. simpl. eexists. reflexivity.
Qed.

(** *** The three branches of the text generator *)

Lemma generateTextParticles_unfold browser random calls text particleCount :
  hasContext2d browser = true →
  generateTextParticles browser random calls text particleCount =
  if decide (litPixels browser text = [])
  then Some (generateCloudParticles random calls particleCount)
  else
    st ← forEachIndex
           (sampleStep random (canvasWidth browser text) canvasHeight
              (litPixels browser text)
              (normalizedColor (rasterOf browser text) <$> litPixels browser text)
              (20 / INR (canvasWidth browser text)))
           (newFloat32Array (particleCount * 3), newFloat32Array (particleCount * 3), calls)
           particleCount;
    Some ({| positions := st.1.1; colors := st.1.2 |}, st.2).
Proof.
  intros Hctx. unfold generateTextParticles. rewrite Hctx. simpl negb. cbv iota zeta.
  rewrite scanPixels_filter. fold (litPixels browser text).
  destruct (decide (litPixels browser text = [])) as [E|E].
  - rewrite E. reflexivity.
  - rewrite bool_decide_eq_false_2 by (destruct (litPixels browser text); [congruence|discriminate]).
    destruct (forEachIndex _ _ _) as [[[p c] k]|]; reflexivity.
Qed.

Lemma generateTextParticles_no_context browser random calls text particleCount :
  hasContext2d browser = false →
  generateTextParticles browser random calls text particleCount =
  Some ({| positions := replicate (particleCount * 3) 0%R;
           colors := replicate (particleCount * 3) 0%R |}, calls).
Proof. intros Hctx. unfold generateTextParticles. rewrite Hctx. reflexivity. Qed.

Lemma litPixels_lit browser text (s pixelIndex : nat) :
  litPixels browser text !! s = Some pixelIndex →
  pixelIndex < canvasWidth browser text * canvasHeight ∧
  lit (rasterOf browser text) pixelIndex.
Proof.
  intros H. apply list_elem_of_lookup_2 in H.
  unfold litPixels in H. apply list_elem_of_filter in H as [Hlit Hin].
  apply elem_of_seq in Hin. split; [lia | exact Hlit].
Qed.

(** Every particle of a field sampled from a non-empty lit set sits on a lit
    pixel and carries that pixel's rasterised colour. *)
Lemma generateTextParticles_sampled browser random calls text particleCount d calls' :
  hasContext2d browser = true → litPixels browser text ≠ [] →
  generateTextParticles browser random calls text particleCount = Some (d, calls') →
  let w := canvasWidth browser text in
  let h := canvasHeight in
  let scale := (20 / INR w)%R in
  length (positions d) = particleCount * 3 ∧
  length (colors d) = particleCount * 3 ∧
  ∀ i, i < particleCount →
    ∃ pixelIndex,
      pixelIndex < w * h ∧
      lit (rasterOf browser text) pixelIndex ∧
      colorOf d i = Some (normalizedColor (rasterOf browser text) pixelIndex) ∧
      positions d !! (i * 3) = Some ((INR (pixelIndex mod w) - INR w / 2) * scale)%R ∧
      positions d !! (i * 3 + 1) = Some (- (INR (pixelIndex / w) - INR h / 2) * scale)%R ∧
      positions d !! (i * 3 + 2) = Some 0%R.
Proof.
  intros Hctx Hne. rewrite generateTextParticles_unfold by exact Hctx.
  destruct (decide _) as [|_]; [contradiction|].
  destruct (forEachIndex _ _ _) as [[[p c] k]|] eqn:E; [|discriminate].
  simpl. intros [= <- <-].
  apply sampleLoop_inv in E as (_ & Hlp & Hlc & Hall).
  rewrite length_newFloat32Array in Hlp, Hlc, Hall. simpl.
  split; [exact Hlp|]. split; [exact Hlc|].
  intros i Hi.
  destruct (Hall i Hi ltac:(lia) ltac:(lia))
    as (s & pixelIndex & colorData & Hv & Hc & P0 & P1 & P2 & C0 & C1 & C2).
  destruct (litPixels_lit browser text s pixelIndex Hv) as [Hlt Hlit].
  exists pixelIndex. split; [exact Hlt|]. split; [exact Hlit|].
  rewrite list_lookup_fmap, Hv in Hc. simpl in Hc. injection Hc as <-.
  split; [|split; [exact P0 | split; [exact P1 | exact P2]]].
  unfold colorOf. simpl. rewrite C0, C1, C2. reflexivity.
Qed.

Lemma generateTextParticles_length browser random calls text particleCount d calls' :
  generateTextParticles browser random calls text particleCount = Some (d, calls') →
  length (positions d) = particleCount * 3 ∧ length (colors d) = particleCount * 3.
Proof.
  destruct (hasContext2d browser) eqn:Hctx.
  - destruct (decide (litPixels browser text = [])) as [E|E].
    + rewrite generateTextParticles_unfold by exact Hctx.
      rewrite decide_True by exact E. intros [= Heq].
      pose proof (generateCloudParticles_spec random calls particleCount) as H.
      cbv zeta in H. rewrite Heq in H. simpl in H. split; apply H.
    + intros H.
      destruct (generateTextParticles_sampled _ _ _ _ _ _ _ Hctx E H) as (H1 & H2 & _).
      split; assumption.
  - rewrite generateTextParticles_no_context by exact Hctx.
    intros [= <- <-]. simpl. rewrite !length_replicate. split; reflexivity.
Qed.

Lemma generateTextParticles_total browser random calls text particleCount :
  (∀ k, 0 <= random k < 1)%R →
  ∃ d calls', generateTextParticles browser random calls text particleCount = Some (d, calls').
Proof.
  intros Hrand. destruct (hasContext2d browser) eqn:Hctx.
  - rewrite generateTextParticles_unfold by exact Hctx.
    destruct (decide _) as [E|E].
    + destruct (generateCloudParticles random calls particleCount) as [d k].
      exists d, k. reflexivity.
    + edestruct (sampleLoop_total random) as [[[p c] k] ->];
        [exact Hrand | exact E | apply length_fmap |].
      simpl. eexists _, _. reflexivity.
  - rewrite generateTextParticles_no_context by exact Hctx. eexists _, _. reflexivity.
Qed.

(* --------------------------------------------------------------------- *)
(** ** Particle morph step *)
(* --------------------------------------------------------------------- *)

Import Experience.

Lemma write_same (heap : Heap) arr k v : write heap arr k v arr = <[k := v]> (heap arr).
Proof. unfold write. apply fn_lookup_insert. Qed.

Lemma write_other (heap : Heap) arr arr' k v :
  arr ≠ arr' → write heap arr k v arr' = heap arr'.
Proof. intros H. unfold write. apply fn_lookup_insert_ne. exact H. Qed.

Lemma setXYZ_same (heap : Heap) arr i v0 v1 v2 :
  setXYZ heap arr i v0 v1 v2 arr = insert3 i v0 v1 v2 (heap arr).
Proof. unfold setXYZ, insert3. rewrite !write_same. reflexivity. Qed.

Lemma setXYZ_other (heap : Heap) arr arr' i v0 v1 v2 :
  arr ≠ arr' → setXYZ heap arr i v0 v1 v2 arr' = heap arr'.
Proof. intros H. unfold setXYZ. rewrite !write_other by exact H. reflexivity. Qed.

Lemma read_write_other_array (heap : Heap) arr arr' k k' v :
  arr ≠ arr' → read (write heap arr k v) arr' k' = read heap arr' k'.
Proof. intros H. unfold read. rewrite write_other by exact H. reflexivity. Qed.

Lemma read_write_other_index (heap : Heap) arr k k' v :
  k ≠ k' → read (write heap arr k v) arr k' = read heap arr k'.
Proof. intros H. unfold read. rewrite write_same, list_lookup_insert_ne by exact H. reflexivity. Qed.

Lemma movePosition_current g t (heap : Heap) i :
  movePosition g t heap i CurrentPositions =
  insert3 i
    (approach (read heap CurrentPositions (i * 3)) (effectiveTarget heap g t i 0) (speedOf g))
    (approach (read heap CurrentPositions (i * 3 + 1)) (effectiveTarget heap g t i 1) (speedOf g))
    (approach (read heap CurrentPositions (i * 3 + 2)) (effectiveTarget heap g t i 2) (speedOf g))
    (heap CurrentPositions).
Proof.
  unfold movePosition, effectiveTarget, idleOffset, posAttr.
  destruct (decide (g = RESET)) as [->|Hg]; cbv zeta.
  - rewrite setXYZ_other by discriminate.
    rewrite !write_same.
    rewrite !read_write_other_index by lia.
    unfold insert3. rewrite Nat.add_0_r, Rplus_0_r. reflexivity.
  - rewrite setXYZ_other by discriminate.
    rewrite !write_same.
    rewrite !read_write_other_index by lia.
    unfold insert3. rewrite Nat.add_0_r. reflexivity.
Qed.

Lemma movePosition_attribute g t (heap : Heap) i :
  let heap' := movePosition g t heap i in
  heap' (TargetPositions RESET) =
  insert3 i (read heap' CurrentPositions (i * 3))
            (read heap' CurrentPositions (i * 3 + 1))
            (read heap' CurrentPositions (i * 3 + 2))
            (heap (TargetPositions RESET)).
Proof.
  intros heap'. subst heap'. unfold read at 1 2 3.
  unfold movePosition, posAttr.
  destruct (decide (g = RESET)) as [->|Hg]; cbv zeta;
    rewrite setXYZ_same, (setXYZ_other _ _ CurrentPositions) by discriminate;
    rewrite !(write_other _ CurrentPositions (TargetPositions RESET)) by discriminate;
    reflexivity.
Qed.

Lemma movePosition_other g t (heap : Heap) i arr :
  arr ≠ CurrentPositions → arr ≠ TargetPositions RESET →
  movePosition g t heap i arr = heap arr.
Proof.
  intros H1 H2. unfold movePosition, posAttr.
  destruct (decide (g = RESET)) as [->|Hg]; cbv zeta;
    rewrite setXYZ_other by congruence;
    rewrite !write_other by congruence; reflexivity.
Qed.

Lemma moveColor_current g (heap : Heap) i :
  moveColor g heap i CurrentColors =
  insert3 i
    (approach (read heap CurrentColors (i * 3)) (read heap (TargetColors g) (i * 3)) (speedOf g))
    (approach (read heap CurrentColors (i * 3 + 1)) (read heap (TargetColors g) (i * 3 + 1)) (speedOf g))
    (approach (read heap CurrentColors (i * 3 + 2)) (read heap (TargetColors g) (i * 3 + 2)) (speedOf g))
    (heap CurrentColors).
Proof.
  unfold moveColor, colAttr. cbv zeta.
  rewrite setXYZ_other by discriminate.
  rewrite !write_same.
  rewrite !read_write_other_index by lia.
  reflexivity.
Qed.

Lemma moveColor_attribute g (heap : Heap) i :
  let heap' := moveColor g heap i in
  heap' (TargetColors RESET) =
  insert3 i (read heap' CurrentColors (i * 3))
            (read heap' CurrentColors (i * 3 + 1))
            (read heap' CurrentColors (i * 3 + 2))
            (heap (TargetColors RESET)).
Proof.
  intros heap'. subst heap'. unfold read at 1 2 3.
  unfold moveColor, colAttr. cbv zeta.
  rewrite setXYZ_same, (setXYZ_other _ _ CurrentColors) by discriminate.
  rewrite !(write_other _ CurrentColors (TargetColors RESET)) by discriminate.
  reflexivity.
Qed.

Lemma moveColor_other g (heap : Heap) i arr :
  arr ≠ CurrentColors → arr ≠ TargetColors RESET →
  moveColor g heap i arr = heap arr.
Proof.
  intros H1 H2. unfold moveColor, colAttr. cbv zeta.
  rewrite setXYZ_other by congruence.
  rewrite !write_other by congruence. reflexivity.
Qed.

Lemma read_ext (h1 h2 : Heap) arr1 arr2 k :
  h1 arr1 !! k = h2 arr2 !! k → read h1 arr1 k = read h2 arr2 k.
Proof. unfold read. intros ->. reflexivity. Qed.

Lemma read_lookup (heap : Heap) arr k v : heap arr !! k = Some v → read heap arr k = v.
Proof. unfold read. intros ->. reflexivity. Qed.

(** The loop body, array by array. *)
Lemma particleStep_arrays g t (heap : Heap) i :
  let heap' := particleStep g t heap i in
  heap' CurrentPositions =
    insert3 i
      (approach (read heap CurrentPositions (i * 3)) (effectiveTarget heap g t i 0) (speedOf g))
      (approach (read heap CurrentPositions (i * 3 + 1)) (effectiveTarget heap g t i 1) (speedOf g))
      (approach (read heap CurrentPositions (i * 3 + 2)) (effectiveTarget heap g t i 2) (speedOf g))
      (heap CurrentPositions) ∧
  heap' CurrentColors =
    insert3 i
      (approach (read heap CurrentColors (i * 3)) (read heap (TargetColors g) (i * 3)) (speedOf g))
      (approach (read heap CurrentColors (i * 3 + 1)) (read heap (TargetColors g) (i * 3 + 1)) (speedOf g))
      (approach (read heap CurrentColors (i * 3 + 2)) (read heap (TargetColors g) (i * 3 + 2)) (speedOf g))
      (heap CurrentColors) ∧
  heap' (TargetPositions RESET) =
    insert3 i (read heap' CurrentPositions (i * 3))
              (read heap' CurrentPositions (i * 3 + 1))
              (read heap' CurrentPositions (i * 3 + 2))
              (heap (TargetPositions RESET)) ∧
  heap' (TargetColors RESET) =
    insert3 i (read heap' CurrentColors (i * 3))
              (read heap' CurrentColors (i * 3 + 1))
              (read heap' CurrentColors (i * 3 + 2))
              (heap (TargetColors RESET)) ∧
  (∀ g', g' ≠ RESET →
     heap' (TargetPositions g') = heap (TargetPositions g') ∧
     heap' (TargetColors g') = heap (TargetColors g')).
Proof.
  intros heap'. subst heap'. unfold particleStep.
  assert (Hcur : moveColor g (movePosition g t heap i) i CurrentPositions =
                 movePosition g t heap i CurrentPositions)
    by (apply moveColor_other; discriminate).
  assert (Hcol : movePosition g t heap i CurrentColors = heap CurrentColors)
    by (apply movePosition_other; discriminate).
  assert (Htc : movePosition g t heap i (TargetColors g) = heap (TargetColors g))
    by (apply movePosition_other; discriminate).
  assert (Htr : movePosition g t heap i (TargetColors RESET) = heap (TargetColors RESET))
    by (apply movePosition_other; discriminate).
  split; [|split; [|split; [|split]]].
  - rewrite Hcur. apply movePosition_current.
  - rewrite moveColor_current. unfold read. rewrite Hcol, Htc. reflexivity.
  - rewrite moveColor_other by discriminate.
    unfold read. rewrite Hcur. apply movePosition_attribute.
  - rewrite moveColor_attribute. rewrite Htr. reflexivity.
  - intros g' Hg'. split.
    + rewrite moveColor_other by congruence. apply movePosition_other; congruence.
    + rewrite moveColor_other by congruence. apply movePosition_other; congruence.
Qed.

Lemma morphParticles_S n g t (heap : Heap) :
  morphParticles (S n) g t heap = particleStep g t (morphParticles n g t heap) n.
Proof. unfold morphParticles. rewrite seq_S, foldl_app. reflexivity. Qed.

Lemma target_lookup_kept P n g t (h h' : Heap) k :
  morphedUpTo P n g t h h' → n * 3 ≤ k →
  h' (TargetPositions g) !! k = h (TargetPositions g) !! k ∧
  h' (TargetColors g) !! k = h (TargetColors g) !! k.
Proof.
  intros (_ & _ & Hge & Hother) Hk.
  destruct (decide (g = RESET)) as [->|Hg].
  - destruct (Hge k Hk) as (_ & _ & H1 & H2). split; assumption.
  - destruct (Hother g Hg) as [-> ->]. split; reflexivity.
Qed.

Lemma morphParticles_inv P n g t (h : Heap) :
  wellSized P h → n ≤ P → morphedUpTo P n g t h (morphParticles n g t h).
Proof.
  intros Hwf. induction n as [|n IH]; intros Hn.
  - unfold morphParticles. simpl. repeat split; try reflexivity; try lia. apply Hwf.
  - specialize (IH ltac:(lia)). rewrite morphParticles_S.
    set (h1 := morphParticles n g t h) in *.
    pose proof (particleStep_arrays g t h1 n) as Hstep. cbv zeta in Hstep.
    set (h2 := particleStep g t h1 n) in *.
    destruct Hstep as (Hpos & Hcol & Hattr & Hcattr & Hrest).
    pose proof IH as (Hlen & Hlt & Hge & Hother).
    (* the reads of turn [n] see the arrays as they were before the loop *)
    assert (Hreads : ∀ axis, axis < 3 →
      read h1 CurrentPositions (n * 3 + axis) = read h CurrentPositions (n * 3 + axis) ∧
      read h1 CurrentColors (n * 3 + axis) = read h CurrentColors (n * 3 + axis) ∧
      effectiveTarget h1 g t n axis = effectiveTarget h g t n axis ∧
      read h1 (TargetColors g) (n * 3 + axis) = read h (TargetColors g) (n * 3 + axis)).
    { intros axis Ha.
      destruct (Hge (n * 3 + axis) ltac:(lia)) as (E1 & E2 & _ & _).
      destruct (target_lookup_kept P n g t h h1 (n * 3 + axis) IH ltac:(lia)) as [E3 E4].
      repeat split; try (apply read_ext; assumption).
      unfold effectiveTarget. rewrite (read_ext h1 h _ _ _ E3). reflexivity. }
    assert (Hlen2 : ∀ arr, length (h2 arr) = P * 3).
    { intros arr. destruct arr as [g'|g'| |].
      - destruct (decide (g' = RESET)) as [->|Hg'].
        + rewrite Hattr, length_insert3. apply Hlen.
        + rewrite (proj1 (Hrest g' Hg')). apply Hlen.
      - destruct (decide (g' = RESET)) as [->|Hg'].
        + rewrite Hcattr, length_insert3. apply Hlen.
        + rewrite (proj2 (Hrest g' Hg')). apply Hlen.
      - rewrite Hpos, length_insert3. apply Hlen.
      - rewrite Hcol, length_insert3. apply Hlen. }
    assert (Hnew : ∀ axis, axis < 3 →
      h2 CurrentPositions !! (n * 3 + axis) =
        Some (approach (read h CurrentPositions (n * 3 + axis))
                       (effectiveTarget h g t n axis) (speedOf g)) ∧
      h2 CurrentColors !! (n * 3 + axis) =
        Some (approach (read h CurrentColors (n * 3 + axis))
                       (read h (TargetColors g) (n * 3 + axis)) (speedOf g))).
    { intros axis Ha.
      rewrite Hpos, Hcol, !insert3_lookup by (rewrite ?Hlen; lia).
      destruct (Hreads 0 ltac:(lia)) as (A0 & B0 & C0 & D0).
      destruct (Hreads 1 ltac:(lia)) as (A1 & B1 & C1 & D1).
      destruct (Hreads 2 ltac:(lia)) as (A2 & B2 & C2 & D2).
      rewrite Nat.add_0_r in A0, B0, D0.
      destruct axis as [|[|[|?]]]; try lia;
        rewrite ?Nat.add_0_r; split; congruence. }
    split; [exact Hlen2|]. split; [|split].
    + intros i axis Hi Ha.
      destruct (decide (i = n)) as [->|Hin].
      * destruct (Hnew axis Ha) as [N1 N2].
        split; [exact N1|]. split; [exact N2|].
        rewrite Hattr, Hcattr, !insert3_lookup by (rewrite ?Hlen; lia).
        assert (Hrd : ∀ arr a, a < 3 →
                  h2 arr !! (n * 3 + a) = Some (read h2 arr (n * 3 + a))).
        { intros arr a Ha'. unfold read.
          destruct (lookup_lt_is_Some_2 (h2 arr) (n * 3 + a)) as [v ->];
            [rewrite Hlen2; lia | reflexivity]. }
        pose proof (Hrd CurrentPositions 0 ltac:(lia)) as P0.
        pose proof (Hrd CurrentColors 0 ltac:(lia)) as Q0.
        rewrite Nat.add_0_r in P0, Q0.
        destruct axis as [|[|[|?]]]; try lia; rewrite ?Nat.add_0_r;
          rewrite ?(Hrd CurrentPositions 1), ?(Hrd CurrentPositions 2),
                  ?(Hrd CurrentColors 1), ?(Hrd CurrentColors 2) by lia;
          split; congruence.
      * destruct (Hlt i axis ltac:(lia) Ha) as (L1 & L2 & L3 & L4).
        rewrite Hpos, Hcol, Hattr, Hcattr, !insert3_lookup_ne by lia.
        repeat split; assumption.
    + intros k Hk.
      destruct (Hge k ltac:(lia)) as (G1 & G2 & G3 & G4).
      rewrite Hpos, Hcol, Hattr, Hcattr, !insert3_lookup_ne by lia.
      repeat split; assumption.
    + intros g' Hg'. destruct (Hrest g' Hg') as [-> ->]. apply Hother. exact Hg'.
Qed.

Lemma morphParticles_wellSized P g t (h : Heap) :
  wellSized P h → wellSized P (morphParticles P g t h).
Proof.
  intros Hwf. destruct (morphParticles_inv P P g t h Hwf (le_n P)) as (Hlen & _).
  exact Hlen.
Qed.

(** The whole loop, slot by slot. *)
Lemma morphParticles_slot P g t (h : Heap) i axis :
  wellSized P h → i < P → axis < 3 →
  read (morphParticles P g t h) CurrentPositions (i * 3 + axis) =
    approach (read h CurrentPositions (i * 3 + axis))
             (effectiveTarget h g t i axis) (speedOf g) ∧
  read (morphParticles P g t h) CurrentColors (i * 3 + axis) =
    approach (read h CurrentColors (i * 3 + axis))
             (read h (TargetColors g) (i * 3 + axis)) (speedOf g).
Proof.
  intros Hwf Hi Ha.
  destruct (morphParticles_inv P P g t h Hwf (le_n P)) as (_ & Hlt & _).
  destruct (Hlt i axis Hi Ha) as (H1 & H2 & _).
  split; apply read_lookup; assumption.
Qed.

(** A target other than RESET is never written. *)
Lemma morphParticles_target_kept P g t (h : Heap) g' :
  wellSized P h → g' ≠ RESET →
  morphParticles P g t h (TargetPositions g') = h (TargetPositions g') ∧
  morphParticles P g t h (TargetColors g') = h (TargetColors g').
Proof.
  intros Hwf Hg'.
  destruct (morphParticles_inv P P g t h Hwf (le_n P)) as (_ & _ & _ & Hother).
  apply Hother. exact Hg'.
Qed.

(** The attribute arrays are the RESET target: after the loop it holds what
    the current arrays hold. *)
Lemma morphParticles_attributes P g t (h : Heap) :
  wellSized P h →
  morphParticles P g t h (TargetPositions RESET) = morphParticles P g t h CurrentPositions ∧
  morphParticles P g t h (TargetColors RESET) = morphParticles P g t h CurrentColors.
Proof.
  intros Hwf.
  destruct (morphParticles_inv P P g t h Hwf (le_n P)) as (Hlen & Hlt & _).
  assert (Hk : ∀ k, k < P * 3 → k = (k / 3) * 3 + k mod 3 ∧ k / 3 < P ∧ k mod 3 < 3).
  { intros k Hk. pose proof (Nat.div_mod_eq k 3). pose proof (Nat.mod_upper_bound k 3).
    split; [lia|]. split; [apply Nat.Div0.div_lt_upper_bound; lia | lia]. }
  split; apply list_eq; intros k.
  - destruct (decide (k < P * 3)) as [Hlt'|Hge].
    + destruct (Hk k Hlt') as (E & H1 & H2). rewrite E. apply (Hlt _ _ H1 H2).
    + rewrite !lookup_ge_None_2 by (rewrite Hlen; lia). reflexivity.
  - destruct (decide (k < P * 3)) as [Hlt'|Hge].
    + destruct (Hk k Hlt') as (E & H1 & H2). rewrite E. apply (Hlt _ _ H1 H2).
    + rewrite !lookup_ge_None_2 by (rewrite Hlen; lia). reflexivity.
Qed.

Lemma speedOf_rateOf (g : GestureType) : speedOf g = rateOf g.
Proof. unfold speedOf, rateOf, MORPH_SPEED. destruct g; reflexivity. Qed.


Lemma morphFrames_cons P g t frames (h : Heap) :
  morphFrames P ((g, t) :: frames) h = morphFrames P frames (morphParticles P g t h).
Proof. reflexivity. Qed.

Lemma morphFrames_wellSized P frames (h : Heap) :
  wellSized P h → wellSized P (morphFrames P frames h).
Proof.
  revert h. induction frames as [|[g t] frames IH]; intros h Hwf; [exact Hwf|].
  rewrite morphFrames_cons. apply IH. apply morphParticles_wellSized. exact Hwf.
Qed.

(** C4. One morph step: every slot [i] moves on every axis by
    current += (effectiveTarget - current) * rate, the rate being 0.2 under
    LOVE and 0.1 otherwise; the three colour channels of the slot follow
    the same rule with the same rate; the target of slot [i] is slot [i] of
    the field selected by the gesture (perturbed under RESET only). *)
Theorem morph_step_rule (heap : Heap) (g : GestureType) (t : R) (i axis : nat) :
  wellSized PARTICLE_COUNT heap → i < PARTICLE_COUNT → axis < 3 →
  let k := i * 3 + axis in
  let rate := match g with LOVE => 0.2%R | _ => 0.1%R end in
  let target := read heap (TargetPositions g) k in
  let effective :=
    if decide (g = RESET) then (target + idleOffset t i axis)%R else target in
  let current := read heap CurrentPositions k in
  let currentColor := read heap CurrentColors k in
  let targetColor := read heap (TargetColors g) k in
  read (useFrame g t heap) CurrentPositions k =
    (current + (effective - current) * rate)%R ∧
  read (useFrame g t heap) CurrentColors k =
    (currentColor + (targetColor - currentColor) * rate)%R.
Proof.
  intros Hwf Hi Ha. cbv zeta.
  destruct (morphParticles_slot PARTICLE_COUNT g t heap i axis Hwf Hi Ha) as [H1 H2].
  unfold useFrame. rewrite H1, H2, speedOf_rateOf.
  unfold approach, effectiveTarget, rateOf. split; reflexivity.
Qed.

Lemma wellSized_demoHeap : wellSized PARTICLE_COUNT demoHeap.
Proof. intros arr. apply length_replicate. Qed.

Lemma read_demoHeap (arr : ArrayRef) (k : nat) :
  k < PARTICLE_COUNT * 3 →
  read demoHeap arr k =
  match arr with
  | TargetPositions RESET | CurrentPositions => 1%R
  | TargetPositions _ => 5%R
  | TargetColors RESET | CurrentColors => 0.5%R
  | TargetColors _ => 1%R
  end.
Proof.
  intros Hk. unfold read, demoHeap. rewrite lookup_replicate_2 by exact Hk. reflexivity.
Qed.

(** A frame under LOVE on arrays away from their targets: the coordinate at
    1 with its target at 5 goes to 1 + (5 - 1) * 0.2, the colour channel at
    0.5 with its target at 1 goes to 0.5 + (1 - 0.5) * 0.2. *)
Lemma morph_step_rule_witness :
  read demoHeap CurrentPositions (7 * 3 + 1) = 1%R ∧
  read demoHeap (TargetPositions LOVE) (7 * 3 + 1) = 5%R ∧
  read (useFrame LOVE 0 demoHeap) CurrentPositions (7 * 3 + 1) = (1 + (5 - 1) * 0.2)%R ∧
  read (useFrame LOVE 0 demoHeap) CurrentColors (7 * 3 + 1) = (0.5 + (1 - 0.5) * 0.2)%R.
Proof.
  assert (Hk : 7 * 3 + 1 < PARTICLE_COUNT * 3) by (unfold PARTICLE_COUNT; lia).
  split; [exact (read_demoHeap CurrentPositions _ Hk)|].
  split; [exact (read_demoHeap (TargetPositions LOVE) _ Hk)|].
  destruct (morph_step_rule demoHeap LOVE 0 7 1 wellSized_demoHeap
              ltac:(unfold PARTICLE_COUNT; lia) ltac:(lia)) as [H1 H2].
  split.
  - etransitivity; [exact H1|].
    rewrite (read_demoHeap CurrentPositions _ Hk), (read_demoHeap (TargetPositions LOVE) _ Hk).
    rewrite decide_False by discriminate. reflexivity.
  - etransitivity; [exact H2|].
    rewrite (read_demoHeap CurrentColors _ Hk), (read_demoHeap (TargetColors LOVE) _ Hk).
    reflexivity.
Defined.








(** The geometry attributes share their arrays with the RESET target: after
    any frame the RESET target holds the current positions and colours, not
    the cloud it was generated as. *)
Theorem frame_overwrites_reset_target (heap : Heap) (g : GestureType) (t : R) :
  wellSized PARTICLE_COUNT heap →
  useFrame g t heap (TargetPositions RESET) = useFrame g t heap CurrentPositions ∧
  useFrame g t heap (TargetColors RESET) = useFrame g t heap CurrentColors ∧
  (∀ g', g' ≠ RESET →
     useFrame g t heap (TargetPositions g') = heap (TargetPositions g') ∧
     useFrame g t heap (TargetColors g') = heap (TargetColors g')).
Proof.
  intros Hwf. unfold useFrame.
  destruct (morphParticles_attributes PARTICLE_COUNT g t heap Hwf) as [H1 H2].
  split; [exact H1|]. split; [exact H2|].
  intros g' Hg'. apply morphParticles_target_kept; assumption.
Qed.

(** A frame under LOVE on arrays away from their targets: the RESET target
    held 1 and holds the new position 1 + (5 - 1) * 0.2 afterwards, while
    the LOVE target is untouched. *)
Lemma frame_overwrites_reset_target_witness :
  read demoHeap (TargetPositions RESET) (7 * 3 + 1) = 1%R ∧
  read (useFrame LOVE 0 demoHeap) (TargetPositions RESET) (7 * 3 + 1) = (1 + (5 - 1) * 0.2)%R ∧
  useFrame LOVE 0 demoHeap (TargetPositions LOVE) = demoHeap (TargetPositions LOVE).
Proof.
  assert (Hk : 7 * 3 + 1 < PARTICLE_COUNT * 3) by (unfold PARTICLE_COUNT; lia).
  destruct (frame_overwrites_reset_target demoHeap LOVE 0 wellSized_demoHeap)
    as (H1 & _ & H3).
  split; [exact (read_demoHeap (TargetPositions RESET) _ Hk)|].
  split; [|exact (proj1 (H3 LOVE ltac:(discriminate)))].
  transitivity (read (useFrame LOVE 0 demoHeap) CurrentPositions (7 * 3 + 1)).
  { apply read_ext. rewrite H1. reflexivity. }
  destruct (morphParticles_slot PARTICLE_COUNT LOVE 0 demoHeap 7 1 wellSized_demoHeap
              ltac:(unfold PARTICLE_COUNT; lia) ltac:(lia)) as [H _].
  etransitivity; [exact H|].
  unfold effectiveTarget. rewrite decide_False by discriminate.
  rewrite (read_demoHeap CurrentPositions _ Hk), (read_demoHeap (TargetPositions LOVE) _ Hk).
  rewrite speedOf_rateOf. reflexivity.
Defined.

(* --------------------------------------------------------------------- *)
(** ** Target fields: colours, lengths, fallbacks *)
(* --------------------------------------------------------------------- *)

(** *** Rasters of the browsers above *)

Lemma lookup_flat_map_quads (pixel : nat → list nat) (start n i c : nat) :
  (∀ j, length (pixel j) = 4) → i < n → c < 4 →
  flat_map pixel (seq start n) !! (i * 4 + c) = pixel (start + i) !! c.
Proof.
  intros Hquad. revert start i. induction n as [|n IH]; intros start i Hi Hc; [lia|].
  simpl. destruct i as [|i].
  - rewrite lookup_app_l by (rewrite Hquad; lia). rewrite Nat.add_0_r. reflexivity.
  - rewrite lookup_app_r by (rewrite Hquad; lia). rewrite Hquad.
    replace (S i * 4 + c - 4) with (i * 4 + c) by lia.
    rewrite IH by lia. f_equal. f_equal. lia.
Qed.

Lemma byteAt_pixelsData (pixel : nat → list nat) (n i c : nat) :
  (∀ j, length (pixel j) = 4) → i < n → c < 4 →
  byteAt (pixelsData pixel n) (i * 4 + c) = default 0 (pixel i !! c).
Proof.
  intros Hquad Hi Hc. unfold byteAt, pixelsData.
  rewrite lookup_flat_map_quads by assumption. reflexivity.
Qed.

Lemma lit_pixelsData (pixel : nat → list nat) (n i : nat) :
  (∀ j, length (pixel j) = 4) → i < n →
  lit (pixelsData pixel n) i ↔
  30 < default 0 (pixel i !! 0) ∨ 30 < default 0 (pixel i !! 1) ∨ 30 < default 0 (pixel i !! 2).
Proof.
  intros Hquad Hi. unfold lit.
  rewrite <- (Nat.add_0_r (i * 4)) at 1.
  rewrite !byteAt_pixelsData by (assumption || lia). reflexivity.
Qed.

Lemma canvasHeight_eq : canvasHeight = 180.
Proof.
  unfold canvasHeight, fontSize. rewrite (Zceil_eq 180); [reflexivity|]. lra.
Qed.

Lemma canvasWidth_40 (browser : Browser) (text : string) :
  measureTextWidth browser arialFont text = 40%R → canvasWidth browser text = 100.
Proof.
  intros H. unfold canvasWidth. rewrite H, (Zceil_eq 40); [reflexivity|]. lra.
Qed.

Lemma edgePixel_quad (j : nat) : length (edgePixel j) = 4.
Proof. destruct j as [|[|?]]; reflexivity. Qed.

Lemma filter_none {A : Type} (P : A → Prop) `{∀ a, Decision (P a)} (l : list A) :
  (∀ a, a ∈ l → ¬ P a) → filter P l = [].
Proof.
  induction l as [|a l IH]; intros Hall; [reflexivity|].
  rewrite filter_cons_False by (apply Hall; left).
  apply IH. intros a' Hin. apply Hall. right. exact Hin.
Qed.

Lemma filter_seq_two (P : nat → Prop) `{∀ i, Decision (P i)} (n : nat) :
  2 ≤ n → P 0 → P 1 → (∀ i, 2 ≤ i → i < n → ¬ P i) →
  filter P (seq 0 n) = [0; 1].
Proof.
  intros Hn H0 H1 Hrest.
  destruct n as [|[|n]]; try lia. cbn [seq].
  rewrite filter_cons_True by exact H0. rewrite filter_cons_True by exact H1.
  f_equal. f_equal.
  apply filter_none. intros i Hin.
  apply elem_of_seq in Hin. apply Hrest; lia.
Qed.

Lemma litPixels_antialiasing (text : string) :
  litPixels antialiasingBrowser text = [0; 1].
Proof.
  unfold litPixels, rasterOf.
  rewrite (canvasWidth_40 antialiasingBrowser text eq_refl), canvasHeight_eq.
  cbn [getImageData antialiasingBrowser].
  apply filter_seq_two.
  - lia.
  - apply lit_pixelsData; [apply edgePixel_quad | lia |]. left. simpl. lia.
  - apply lit_pixelsData; [apply edgePixel_quad | lia |]. left. simpl. lia.
  - intros i Hi Hlt Hlit.
    apply lit_pixelsData in Hlit; [|apply edgePixel_quad | exact Hlt].
    destruct i as [|[|i]]; try lia. simpl in Hlit. lia.
Qed.

Lemma normalizedColor_antialiasing_edge (text : string) :
  normalizedColor (rasterOf antialiasingBrowser text) 1 = grey.
Proof.
  unfold normalizedColor, rasterOf.
  rewrite (canvasWidth_40 antialiasingBrowser text eq_refl), canvasHeight_eq.
  cbn [getImageData antialiasingBrowser].
  pose proof (byteAt_pixelsData edgePixel (100 * 180) 1 0 edgePixel_quad ltac:(lia) ltac:(lia)) as B0.
  pose proof (byteAt_pixelsData edgePixel (100 * 180) 1 1 edgePixel_quad ltac:(lia) ltac:(lia)) as B1.
  pose proof (byteAt_pixelsData edgePixel (100 * 180) 1 2 edgePixel_quad ltac:(lia) ltac:(lia)) as B2.
  rewrite Nat.add_0_r in B0. rewrite B0, B1, B2. reflexivity.
Qed.

Lemma at_index_of_nat {A : Type} (arr : list A) (s : nat) :
  at_index arr (Z.of_nat s) = arr !! s.
Proof.
  unfold at_index. rewrite decide_True by lia. rewrite Nat2Z.id. reflexivity.
Qed.

Lemma sampleStep_at random w h validPixels pixelColors scale positions colors calls i
    (s pixelIndex : nat) (colorData : PixelColor) :
  Zfloor (random calls * INR (length validPixels)) = Z.of_nat s →
  validPixels !! s = Some pixelIndex → pixelColors !! s = Some colorData →
  sampleStep random w h validPixels pixelColors scale (positions, colors, calls) i =
  Some (insert3 i ((INR (pixelIndex mod w) - INR w / 2) * scale)
                  (- (INR (pixelIndex / w) - INR h / 2) * scale) 0 positions,
        insert3 i (r colorData) (g colorData) (b colorData) colors,
        calls + 1).
Proof.
  intros Hs Hv Hc. unfold sampleStep. cbv zeta.
  rewrite Hs, !at_index_of_nat, Hv, Hc. reflexivity.
Qed.

(** One particle sampled on the anti-aliased raster with [Math.random]
    returning one half: it lands on the edge pixel and is grey. *)
Lemma antialiasing_sample :
  ∃ d, generateTextParticles antialiasingBrowser halves 0 loveText 1 = Some (d, 1) ∧
       colorOf d 0 = Some grey.
Proof.
  rewrite generateTextParticles_unfold by reflexivity.
  rewrite litPixels_antialiasing. rewrite decide_False by discriminate.
  rewrite forEachIndex_S.
  change (forEachIndex ?body ?st 0) with (Some st).
  cbn [mbind option_bind].
  erewrite (sampleStep_at halves _ _ [0; 1] _ _ _ _ 0 0 1 1 grey).
  - cbn [mbind option_bind fst snd]. eexists. split; [reflexivity|].
    unfold colorOf. cbn [colors]. reflexivity.
  - unfold halves. apply Zfloor_eq. change (Z.of_nat 1) with 1%Z. simpl. lra.
  - reflexivity.
  - cbn [fmap list_fmap lookup list_lookup].
    rewrite normalizedColor_antialiasing_edge. reflexivity.
Qed.

Lemma grey_not_white_or_red : grey ≠ white ∧ grey ≠ red.
Proof.
  assert (H : (INR 128 / 255 < 1)%R).
  { rewrite INR_IZR_INZ. change (Z.of_nat 128) with 128%Z. lra. }
  unfold grey, white, red. split; intros [= E _ _]; lra.
Qed.

(** The colour of each particle of a text field is white or red: what C6
    asserts.  It fails on a raster with an anti-aliased edge. *)
Lemma text_colors_white_or_red_fails :
  ¬ (∀ (browser : Browser) (random : Random) (calls particleCount : nat)
       (d : ParticleData) (calls' i : nat),
       generateTextParticles browser random calls loveText particleCount = Some (d, calls') →
       i < particleCount →
       colorOf d i = Some white ∨ colorOf d i = Some red).
Proof.
  intros Hclaim.
  destruct antialiasing_sample as (d & Hgen & Hcol).
  destruct grey_not_white_or_red as [Hw Hr].
  destruct (Hclaim antialiasingBrowser halves 0 1 d 1 0 Hgen ltac:(lia)) as [H|H];
    rewrite Hcol in H; [apply Hw | apply Hr]; congruence.
Qed.

Lemma drawCalls_love (w h : nat) :
  drawCalls loveText w h =
  [ FillRect "#000000" 0 0 (INR w) (INR h);
    FillText "#FFFFFF" arialFont "I" (INR w / 2 - fontSize * 1.2) (INR h / 2);
    FillText "#FF0000" emojiFont "❤️" (INR w / 2) (INR h / 2);
    FillText "#FFFFFF" arialFont "U" (INR w / 2 + fontSize * 1.2) (INR h / 2) ].
Proof. unfold drawCalls. rewrite decide_True by reflexivity. reflexivity. Qed.

(** C6, amended. White and red are the fill styles of the drawing calls
    (white for the letters, red for the heart); each lit pixel is paired
    with its own rasterised channels over 255.  So in a text field sampled
    from a non-empty lit set every particle carries the rasterised colour of
    a lit pixel, and is exactly white or exactly red wherever every lit
    pixel of the raster is. *)
Theorem text_colors_are_rasterized (browser : Browser) (random : Random)
    (calls particleCount : nat) (text : string) (d : ParticleData) (calls' : nat) :
  hasContext2d browser = true →
  litPixels browser text ≠ [] →
  generateTextParticles browser random calls text particleCount = Some (d, calls') →
  let w := canvasWidth browser text in
  let h := canvasHeight in
  let data := rasterOf browser text in
  (drawCalls loveText w h =
   [ FillRect "#000000" 0 0 (INR w) (INR h);
     FillText "#FFFFFF" arialFont "I" (INR w / 2 - fontSize * 1.2) (INR h / 2);
     FillText "#FF0000" emojiFont "❤️" (INR w / 2) (INR h / 2);
     FillText "#FFFFFF" arialFont "U" (INR w / 2 + fontSize * 1.2) (INR h / 2) ]) ∧
  (scanPixels data w h).2 = normalizedColor data <$> (scanPixels data w h).1 ∧
  (∀ i, i < particleCount →
     ∃ pixelIndex, pixelIndex < w * h ∧ lit data pixelIndex ∧
                   colorOf d i = Some (normalizedColor data pixelIndex)) ∧
  ((∀ pixelIndex, pixelIndex < w * h → lit data pixelIndex →
      normalizedColor data pixelIndex = white ∨ normalizedColor data pixelIndex = red) →
   ∀ i, i < particleCount → colorOf d i = Some white ∨ colorOf d i = Some red).
Proof.
  intros Hctx Hne Hgen. cbv zeta.
  destruct (generateTextParticles_sampled _ _ _ _ _ _ _ Hctx Hne Hgen) as (_ & _ & Hall).
  cbv zeta in Hall.
  assert (Hcol : ∀ i, i < particleCount →
            ∃ pixelIndex, pixelIndex < canvasWidth browser text * canvasHeight ∧
              lit (rasterOf browser text) pixelIndex ∧
              colorOf d i = Some (normalizedColor (rasterOf browser text) pixelIndex)).
  { intros i Hi. destruct (Hall i Hi) as (pixelIndex & H1 & H2 & H3 & _).
    exists pixelIndex. repeat split; assumption. }
  split; [apply drawCalls_love|].
  split; [rewrite scanPixels_filter; reflexivity|].
  split; [exact Hcol|].
  intros Hpure i Hi.
  destruct (Hcol i Hi) as (pixelIndex & Hlt & Hlit & ->).
  destruct (Hpure pixelIndex Hlt Hlit) as [-> | ->]; auto.
Qed.

Lemma text_colors_are_rasterized_witness :
  ∃ d, generateTextParticles antialiasingBrowser halves 0 loveText 1 = Some (d, 1) ∧
       ∃ pixelIndex,
         lit (rasterOf antialiasingBrowser loveText) pixelIndex ∧
         colorOf d 0 = Some (normalizedColor (rasterOf antialiasingBrowser loveText) pixelIndex).
Proof.
  destruct antialiasing_sample as (d & Hgen & _).
  exists d. split; [exact Hgen|].
  assert (Hne : litPixels antialiasingBrowser loveText ≠ [])
    by (rewrite litPixels_antialiasing; discriminate).
  destruct (text_colors_are_rasterized antialiasingBrowser halves 0 1 loveText d 1
              eq_refl Hne Hgen) as (_ & _ & Hall & _).
  destruct (Hall 0 ltac:(lia)) as (pixelIndex & _ & Hlit & Hcol).
  exists pixelIndex. split; [exact Hlit | exact Hcol].
Defined.

(** *** The targets and the live arrays *)

Lemma makeTargets_lengths browser random calls targets calls' :
  makeTargets browser random calls = Some (targets, calls') →
  ∀ g, length (positions (targets g)) = PARTICLE_COUNT * 3 ∧
       length (colors (targets g)) = PARTICLE_COUNT * 3.
Proof.
  unfold makeTargets.
  pose proof (generateCloudParticles_spec random calls PARTICLE_COUNT) as Hcloud.
  cbv zeta in Hcloud.
  destruct (generateCloudParticles random calls PARTICLE_COUNT) as [reset k0].
  destruct (generateTextParticles browser random k0 "1" PARTICLE_COUNT)
    as [[one k1]|] eqn:E1; [|discriminate].
  cbn [mbind option_bind].
  destruct (generateTextParticles browser random k1 "2" PARTICLE_COUNT)
    as [[two k2]|] eqn:E2; [|discriminate].
  cbn [mbind option_bind].
  destruct (generateTextParticles browser random k2 "3" PARTICLE_COUNT)
    as [[three k3]|] eqn:E3; [|discriminate].
  cbn [mbind option_bind].
  destruct (generateTextParticles browser random k3 loveText PARTICLE_COUNT)
    as [[love k4]|] eqn:E4; [|discriminate].
  cbn [mbind option_bind].
  intros [= <- <-] g.
  destruct g.
  - simpl in Hcloud. split; apply Hcloud.
  - exact (generateTextParticles_length _ _ _ _ _ _ _ E1).
  - exact (generateTextParticles_length _ _ _ _ _ _ _ E2).
  - exact (generateTextParticles_length _ _ _ _ _ _ _ E3).
  - exact (generateTextParticles_length _ _ _ _ _ _ _ E4).
Qed.

Lemma mount_wellSized browser random calls (heap : Heap) :
  mount browser random calls = Some heap → wellSized PARTICLE_COUNT heap.
Proof.
  unfold mount.
  destruct (makeTargets browser random calls) as [[targets k]|] eqn:E; [|discriminate].
  cbn [mbind option_bind]. intros [= <-] arr.
  pose proof (makeTargets_lengths _ _ _ _ _ E) as Hlen.
  destruct arr as [g|g| |]; apply Hlen.
Qed.

Lemma mount_total browser random calls :
  (∀ k, 0 <= random k < 1)%R → ∃ heap, mount browser random calls = Some heap.
Proof.
  intros Hrand. unfold mount, makeTargets.
  destruct (generateCloudParticles random calls PARTICLE_COUNT) as [reset k0].
  destruct (generateTextParticles_total browser random k0 "1" PARTICLE_COUNT Hrand)
    as (one & k1 & ->). cbn [mbind option_bind].
  destruct (generateTextParticles_total browser random k1 "2" PARTICLE_COUNT Hrand)
    as (two & k2 & ->). cbn [mbind option_bind].
  destruct (generateTextParticles_total browser random k2 "3" PARTICLE_COUNT Hrand)
    as (three & k3 & ->). cbn [mbind option_bind].
  destruct (generateTextParticles_total browser random k3 loveText PARTICLE_COUNT Hrand)
    as (love & k4 & ->). cbn [mbind option_bind].
  eexists. reflexivity.
Qed.

(** C7. Every branch of the generators returns position and colour arrays
    of 3 x P numbers: the cloud, and the text generator whether the 2D
    context is missing, the lit set is empty or particles are sampled;
    it does return when Math.random stays in [0, 1).  The five targets of
    the component have this length alike, and the live arrays keep it over
    any run of frames. *)
Theorem field_lengths :
  (∀ (random : Random) (calls particleCount : nat),
     let d := (generateCloudParticles random calls particleCount).1 in
     length (positions d) = particleCount * 3 ∧ length (colors d) = particleCount * 3) ∧
  (∀ (browser : Browser) (random : Random) (calls particleCount : nat) (text : string)
     (d : ParticleData) (calls' : nat),
     generateTextParticles browser random calls text particleCount = Some (d, calls') →
     length (positions d) = particleCount * 3 ∧ length (colors d) = particleCount * 3) ∧
  (∀ (browser : Browser) (random : Random) (calls particleCount : nat) (text : string),
     (∀ k, 0 <= random k < 1)%R →
     ∃ d calls', generateTextParticles browser random calls text particleCount =
                 Some (d, calls')) ∧
  (∀ (browser : Browser) (random : Random) (calls : nat)
     (targets : GestureType → ParticleData) (calls' : nat),
     makeTargets browser random calls = Some (targets, calls') →
     ∀ g : GestureType,
       length (positions (targets g)) = PARTICLE_COUNT * 3 ∧
       length (colors (targets g)) = PARTICLE_COUNT * 3) ∧
  (∀ (browser : Browser) (random : Random) (calls : nat) (heap : Heap)
     (frames : list (GestureType * R)),
     mount browser random calls = Some heap →
     ∀ arr : ArrayRef, length (useFrames frames heap arr) = PARTICLE_COUNT * 3).
Proof.
  split; [|split; [|split; [|split]]].
  - intros random calls particleCount d. subst d.
    pose proof (generateCloudParticles_spec random calls particleCount) as H.
    cbv zeta in H. split; apply H.
  - intros browser random calls particleCount text d calls'.
    apply generateTextParticles_length.
  - intros browser random calls particleCount text.
    apply generateTextParticles_total.
  - intros browser random calls targets calls'. apply makeTargets_lengths.
  - intros browser random calls heap frames Hmount.
    apply (morphFrames_wellSized PARTICLE_COUNT frames heap).
    exact (mount_wellSized _ _ _ _ Hmount).
Qed.

(** With no 2D context and [Math.random] in range the component mounts, and
    two frames later every array still has 3 x 3000 numbers. *)
Lemma field_lengths_witness :
  ∃ heap, mount headlessBrowser halves 0 = Some heap ∧
          ∀ arr : ArrayRef,
            length (useFrames [(RESET, 0%R); (LOVE, 1%R)] heap arr) = PARTICLE_COUNT * 3.
Proof.
  destruct (mount_total headlessBrowser halves 0) as [heap Hmount].
  { intros k. unfold halves. lra. }
  exists heap. split; [exact Hmount|].
  exact (proj2 (proj2 (proj2 (proj2 field_lengths)))
           headlessBrowser halves 0 heap [(RESET, 0%R); (LOVE, 1%R)] Hmount).
Defined.

(** C8. With a 2D context and a raster without any lit pixel the text
    generator returns what the cloud generator returns for the same
    particle count (and the same state of Math.random). *)
Theorem empty_lit_set_gives_cloud (browser : Browser) (random : Random)
    (calls particleCount : nat) (text : string) :
  hasContext2d browser = true →
  (∀ i, i < canvasWidth browser text * canvasHeight → ¬ lit (rasterOf browser text) i) →
  (scanPixels (rasterOf browser text) (canvasWidth browser text) canvasHeight).1 = [] ∧
  generateTextParticles browser random calls text particleCount =
  Some (generateCloudParticles random calls particleCount).
Proof.
  intros Hctx Hdark.
  assert (Hlit : litPixels browser text = []).
  { unfold litPixels. apply filter_none. intros i Hin.
    apply elem_of_seq in Hin. apply Hdark. lia. }
  split.
  - rewrite scanPixels_filter. exact Hlit.
  - rewrite generateTextParticles_unfold by exact Hctx.
    rewrite decide_True by exact Hlit. reflexivity.
Qed.

Lemma blank_raster_dark (text : string) (i : nat) :
  i < canvasWidth blankBrowser text * canvasHeight → ¬ lit (rasterOf blankBrowser text) i.
Proof.
  intros Hi Hlit. unfold rasterOf in Hlit. cbn [getImageData blankBrowser] in Hlit.
  apply lit_pixelsData in Hlit; [|reflexivity | exact Hi].
  simpl in Hlit. lia.
Qed.

Lemma empty_lit_set_gives_cloud_witness :
  generateTextParticles blankBrowser halves 0 "1" 5 =
  Some (generateCloudParticles halves 0 5).
Proof.
  exact (proj2 (empty_lit_set_gives_cloud blankBrowser halves 0 5 "1" eq_refl
                  (blank_raster_dark "1"))).
Defined.

(** C10. Without a 2D context the text generator returns 3 x P zeros for
    the positions and for the colours: every particle at the origin and
    black.  That is not the cloud field, whose particles are never black. *)
Theorem missing_context_gives_zeros (browser : Browser) (random : Random)
    (calls particleCount : nat) (text : string) :
  hasContext2d browser = false →
  let zeros := {| positions := replicate (particleCount * 3) 0%R;
                  colors := replicate (particleCount * 3) 0%R |} in
  generateTextParticles browser random calls text particleCount = Some (zeros, calls) ∧
  length (positions zeros) = particleCount * 3 ∧
  length (colors zeros) = particleCount * 3 ∧
  (∀ k v, positions zeros !! k = Some v ∨ colors zeros !! k = Some v → v = 0%R) ∧
  (∀ i, i < particleCount → colorOf zeros i = Some black) ∧
  (0 < particleCount →
   ∀ (random' : Random) (calls' : nat),
     (generateCloudParticles random' calls' particleCount).1 ≠ zeros).
Proof.
  intros Hctx zeros. subst zeros.
  split; [apply generateTextParticles_no_context; exact Hctx|].
  cbn [positions colors]. rewrite !length_replicate.
  split; [reflexivity|]. split; [reflexivity|].
  assert (Hblack : ∀ i, i < particleCount →
            colorOf {| positions := replicate (particleCount * 3) 0%R;
                       colors := replicate (particleCount * 3) 0%R |} i = Some black).
  { intros i Hi. unfold colorOf. cbn [colors].
    rewrite !lookup_replicate_2 by lia. reflexivity. }
  split; [|split; [exact Hblack|]].
  - intros k v [H|H]; apply lookup_replicate in H; tauto.
  - intros Hpos random' calls' Heq.
    pose proof (generateCloudParticles_spec random' calls' particleCount)
      as (_ & _ & _ & Hcol & _).
    specialize (Hcol 0 Hpos). rewrite Heq, (Hblack 0 Hpos) in Hcol.
    injection Hcol as H _ _. lra.
Qed.

Lemma missing_context_gives_zeros_witness :
  generateTextParticles headlessBrowser halves 0 "1" 2 =
  Some ({| positions := replicate (2 * 3) 0%R; colors := replicate (2 * 3) 0%R |}, 0).
Proof.
  exact (proj1 (missing_context_gives_zeros headlessBrowser halves 0 2 "1" eq_refl)).
Defined.

(** Every particle of the cloud has the dim colour (0.1, 0.15, 0.2). *)
Theorem cloud_color_is_constant (random : Random) (calls particleCount i : nat) :
  i < particleCount →
  colorOf (generateCloudParticles random calls particleCount).1 i =
  Some {| r := 0.1; g := 0.15; b := 0.2 |}.
Proof.
  intros Hi.
  pose proof (generateCloudParticles_spec random calls particleCount)
    as (_ & _ & _ & H & _).
  exact (H i Hi).
Qed.

Lemma cloud_color_is_constant_witness :
  colorOf (generateCloudParticles halves 0 4).1 2 = Some {| r := 0.1; g := 0.15; b := 0.2 |}.
Proof. exact (cloud_color_is_constant halves 0 4 2 ltac:(lia)). Defined.

(** A sampled text particle sits on a lit pixel: raster column and row
    scaled by 20 / width about the canvas centre, the vertical axis
    inverted, z = 0. *)
Theorem text_particles_sit_on_lit_pixels (browser : Browser) (random : Random)
    (calls particleCount : nat) (text : string) (d : ParticleData) (calls' i : nat) :
  hasContext2d browser = true →
  litPixels browser text ≠ [] →
  generateTextParticles browser random calls text particleCount = Some (d, calls') →
  i < particleCount →
  let w := canvasWidth browser text in
  let h := canvasHeight in
  let scale := (20 / INR w)%R in
  ∃ pixelIndex,
    pixelIndex < w * h ∧ lit (rasterOf browser text) pixelIndex ∧
    positions d !! (i * 3) = Some ((INR (pixelIndex mod w) - INR w / 2) * scale)%R ∧
    positions d !! (i * 3 + 1) = Some (- (INR (pixelIndex / w) - INR h / 2) * scale)%R ∧
    positions d !! (i * 3 + 2) = Some 0%R.
Proof.
  intros Hctx Hne Hgen Hi. cbv zeta.
  destruct (generateTextParticles_sampled _ _ _ _ _ _ _ Hctx Hne Hgen) as (_ & _ & Hall).
  destruct (Hall i Hi) as (pixelIndex & H1 & H2 & _ & H4 & H5 & H6).
  exists pixelIndex. repeat split; assumption.
Qed.

Lemma text_particles_sit_on_lit_pixels_witness :
  ∃ d pixelIndex,
    generateTextParticles antialiasingBrowser halves 0 loveText 1 = Some (d, 1) ∧
    lit (rasterOf antialiasingBrowser loveText) pixelIndex ∧
    positions d !! (0 * 3 + 2) = Some 0%R.
Proof.
  destruct antialiasing_sample as (d & Hgen & _).
  assert (Hne : litPixels antialiasingBrowser loveText ≠ [])
    by (rewrite litPixels_antialiasing; discriminate).
  destruct (text_particles_sit_on_lit_pixels antialiasingBrowser halves 0 1 loveText d 1 0
              eq_refl Hne Hgen ltac:(lia)) as (pixelIndex & _ & Hlit & _ & _ & Hz).
  exists d, pixelIndex. split; [exact Hgen|]. split; [exact Hlit | exact Hz].
Defined.

Lemma cbrt_unit (u : R) : (0 <= u < 1)%R → (0 <= cbrt u < 1)%R.
Proof.
  intros [H0 H1]. unfold cbrt.
  destruct (decide (u = 0)%R) as [|Hne]; [lra|].
  destruct (decide (0 < u)%R) as [Hpos|]; [|lra].
  unfold Rpower. pose proof (exp_pos (1 / 3 * ln u)) as Hexp.
  assert (Hln : (ln u < 0)%R) by (rewrite <- ln_1; apply ln_increasing; lra).
  assert (Hlt : (exp (1 / 3 * ln u) < exp 0)%R) by (apply exp_increasing; lra).
  rewrite exp_0 in Hlt. lra.
Qed.

Lemma cloudPoint_norm (random : Random) (call : nat) :
  ((cloudPoint random call 0) ^ 2 + (cloudPoint random call 1) ^ 2 +
   (cloudPoint random call 2) ^ 2 = (10 * cbrt (random call)) ^ 2)%R.
Proof.
  unfold cloudPoint. cbv zeta.
  set (rad := (10 * cbrt (random call))%R).
  set (theta := (random (call + 1)%nat * 2 * PI)%R).
  set (phi := acos (2 * random (call + 2)%nat - 1)).
  pose proof (sin2_cos2 theta) as Ht. pose proof (sin2_cos2 phi) as Hp.
  unfold Rsqr in Ht, Hp.
  replace (((rad * sin phi * cos theta) ^ 2 + (rad * sin phi * sin theta) ^ 2 +
            (rad * cos phi) ^ 2))%R
    with (rad ^ 2 * (sin phi * sin phi * (sin theta * sin theta + cos theta * cos theta) +
                     cos phi * cos phi))%R by ring.
  rewrite Ht, Rmult_1_r, Hp. ring.
Qed.

(** Every particle of the cloud is at distance 10 times the cube root of
    its first draw from the origin, and each of its coordinates is within
    [-10, 10]. *)
Theorem cloud_radius_from_first_draw (random : Random) (calls particleCount i : nat) :
  (∀ k, 0 <= random k < 1)%R → i < particleCount →
  let d := (generateCloudParticles random calls particleCount).1 in
  ∃ px py pz : R,
    positions d !! (i * 3) = Some px ∧
    positions d !! (i * 3 + 1) = Some py ∧
    positions d !! (i * 3 + 2) = Some pz ∧
    (px ^ 2 + py ^ 2 + pz ^ 2 = (10 * cbrt (random (calls + 3 * i)%nat)) ^ 2)%R ∧
    (- 10 <= px <= 10)%R ∧ (- 10 <= py <= 10)%R ∧ (- 10 <= pz <= 10)%R.
Proof.
  intros Hrand Hi d. subst d.
  pose proof (generateCloudParticles_spec random calls particleCount)
    as (_ & _ & _ & _ & Hpos).
  pose proof (Hpos i 0 Hi ltac:(lia)) as H0. rewrite Nat.add_0_r in H0.
  eexists _, _, _. split; [exact H0|].
  split; [exact (Hpos i 1 Hi ltac:(lia))|].
  split; [exact (Hpos i 2 Hi ltac:(lia))|].
  pose proof (cloudPoint_norm random (calls + 3 * i)) as Hnorm.
  split; [exact Hnorm|].
  pose proof (cbrt_unit _ (Hrand (calls + 3 * i))) as Hc.
  set (px := cloudPoint random (calls + 3 * i) 0) in *.
  set (py := cloudPoint random (calls + 3 * i) 1) in *.
  set (pz := cloudPoint random (calls + 3 * i) 2) in *.
  set (c := cbrt (random (calls + 3 * i))) in *.
  assert (Hsq : (px ^ 2 + py ^ 2 + pz ^ 2 <= 100)%R) by (rewrite Hnorm; nra).
  repeat split; nra.
Qed.

(** Draws that are all one half: the particle is at (-10 cbrt 0.5, 0, 0) up
    to the order of the factors, at distance 10 cbrt 0.5 from the origin. *)
Lemma cloud_radius_from_first_draw_witness :
  ∃ px py pz : R,
    positions (generateCloudParticles halves 0 4).1 !! (2 * 3) = Some px ∧
    positions (generateCloudParticles halves 0 4).1 !! (2 * 3 + 1) = Some py ∧
    positions (generateCloudParticles halves 0 4).1 !! (2 * 3 + 2) = Some pz ∧
    (px ^ 2 + py ^ 2 + pz ^ 2 = (10 * cbrt 0.5) ^ 2)%R ∧ (- 10 <= px <= 10)%R.
Proof.
  destruct (cloud_radius_from_first_draw halves 0 4 2)
    as (px & py & pz & H0 & H1 & H2 & H & Hx & _);
    [intros k; unfold halves; lra | lia |].
  exists px, py, pz. split; [exact H0|]. split; [exact H1|]. split; [exact H2|].
  split; [exact H | exact Hx].
Defined.

(* --------------------------------------------------------------------- *)
(** ** What the classifier reads *)
(* --------------------------------------------------------------------- *)

Lemma isFingerOpen_used (lm lm' : list Landmark) (tipIdx pipIdx : nat) :
  inPlane <$> lm !! 0 = inPlane <$> lm' !! 0 →
  inPlane <$> lm !! tipIdx = inPlane <$> lm' !! tipIdx →
  inPlane <$> lm !! pipIdx = inPlane <$> lm' !! pipIdx →
  isFingerOpen lm tipIdx pipIdx = isFingerOpen lm' tipIdx pipIdx.
Proof.
  intros H0 Ht Hp. unfold isFingerOpen, distSq.
  destruct (lm !! 0) as [[? ? ?]|], (lm' !! 0) as [[? ? ?]|];
    try discriminate H0; [injection H0 as -> ->|reflexivity].
  destruct (lm !! tipIdx) as [[? ? ?]|], (lm' !! tipIdx) as [[? ? ?]|];
    try discriminate Ht; [injection Ht as -> ->|reflexivity].
  destruct (lm !! pipIdx) as [[? ? ?]|], (lm' !! pipIdx) as [[? ? ?]|];
    try discriminate Hp; [injection Hp as -> ->|reflexivity].
  reflexivity.
Qed.

Lemma fingerStates_used (lm lm' : list Landmark) :
  (∀ k, k ∈ usedLandmarks → inPlane <$> lm !! k = inPlane <$> lm' !! k) →
  fingerStates lm = fingerStates lm'.
Proof.
  intros H.
  assert (Hk : ∀ k, bool_decide (k ∈ usedLandmarks) = true →
                    inPlane <$> lm !! k = inPlane <$> lm' !! k).
  { intros k Hk. apply H. apply bool_decide_eq_true in Hk. exact Hk. }
  pose proof (Hk 0 eq_refl) as H0. pose proof (Hk 4 eq_refl) as H4.
  pose proof (Hk 5 eq_refl) as H5.
  unfold fingerStates.
  rewrite (isFingerOpen_used lm lm' 8 6), (isFingerOpen_used lm lm' 12 10),
    (isFingerOpen_used lm lm' 16 14), (isFingerOpen_used lm lm' 20 18)
    by (apply Hk; reflexivity).
  unfold distSq.
  destruct (lm !! 0) as [[? ? ?]|], (lm' !! 0) as [[? ? ?]|];
    try discriminate H0; [injection H0 as -> ->|reflexivity].
  destruct (lm !! 5) as [[? ? ?]|], (lm' !! 5) as [[? ? ?]|];
    try discriminate H5; [injection H5 as -> ->|reflexivity].
  destruct (lm !! 4) as [[? ? ?]|], (lm' !! 4) as [[? ? ?]|];
    try discriminate H4; [injection H4 as -> ->| ]; simpl.
  - reflexivity.
  - destruct (isFingerOpen lm' 8 6), (isFingerOpen lm' 12 10),
      (isFingerOpen lm' 16 14), (isFingerOpen lm' 20 18); reflexivity.
Qed.

(** The label is read off the image-plane coordinates of eleven landmarks
    of the first hand: nothing else of the result matters. *)
Theorem detectGesture_reads_eleven_landmarks (lm lm' : list Landmark)
    (others others' : list (list Landmark)) :
  (∀ k, k ∈ usedLandmarks → inPlane <$> lm !! k = inPlane <$> lm' !! k) →
  detectGesture (lm :: others) = detectGesture (lm' :: others').
Proof.
  intros H. unfold detectGesture. simpl.
  rewrite (fingerStates_used lm lm' H). reflexivity.
Qed.

Lemma detectGesture_reads_eleven_landmarks_witness :
  detectGesture [pointingHand] =
  detectGesture [withDepth (λ _, 5%float) <$> pointingHand; pointingHand].
Proof.
  apply (detectGesture_reads_eleven_landmarks pointingHand
           (withDepth (λ _, 5%float) <$> pointingHand) [] [pointingHand]).
  intros k _. rewrite list_lookup_fmap.
  destruct (pointingHand !! k) as [p|]; reflexivity.
Defined.

(* --------------------------------------------------------------------- *)
(** ** The animation-frame loop *)
(* --------------------------------------------------------------------- *)

Lemma fingerStates_Some (lm : list Landmark) :
  21 ≤ length lm ↔ is_Some (fingerStates lm).
Proof.
  split.
  - intros Hlen. unfold fingerStates, isFingerOpen.
    repeat match goal with
    | |- context [lm !! ?k] =>
        let p := fresh "p" in let E := fresh "E" in
        destruct (lookup_lt_is_Some_2 lm k ltac:(lia)) as [p E]; rewrite !E; clear E
    end.
    simpl. eexists. reflexivity.
  - intros [f Hf]. unfold fingerStates in Hf.
    destruct (lm !! 0); [|discriminate]. destruct (lm !! 5); [|discriminate].
    simpl in Hf.
    destruct (isFingerOpen lm 8 6); [|discriminate].
    destruct (isFingerOpen lm 12 10); [|discriminate].
    destruct (isFingerOpen lm 16 14); [|discriminate]. simpl in Hf.
    destruct (isFingerOpen lm 20 18) eqn:E; [|discriminate].
    unfold isFingerOpen in E.
    destruct (lm !! 0); [|discriminate]. simpl in E.
    destruct (lm !! 20) eqn:E20; [|discriminate].
    apply lookup_lt_Some in E20. lia.
Qed.

Lemma detectGesture_None (landmarks : list (list Landmark)) :
  detectGesture landmarks = None ↔ ∃ lm, landmarks !! 0 = Some lm ∧ length lm < 21.
Proof.
  unfold detectGesture. destruct landmarks as [|lm rest]; simpl.
  - split; [discriminate|]. intros (lm & H & _). discriminate.
  - pose proof (fingerStates_Some lm) as HS.
    destruct (fingerStates lm) as [f|]; simpl.
    + split; [discriminate|]. intros (lm' & [= <-] & Hlt).
      assert (21 ≤ length lm) by (apply HS; eauto). lia.
    + split; [|reflexivity]. intros _. exists lm. split; [reflexivity|].
      destruct (decide (21 ≤ length lm)) as [H|H]; [|lia].
      apply HS in H. destruct H as [? ?]. discriminate.
Qed.

(** [predictWebcam] throws exactly when it analyses a frame whose first
    hand has fewer than 21 landmarks. *)
Theorem predictWebcam_throws_iff (s : Smoothing) (v : VideoFrame) :
  predictWebcam s v = None ↔
  landmarkerReady v = true ∧ videoMounted v = true ∧ 2 ≤ readyState v ∧
  ∃ lm, landmarks v !! 0 = Some lm ∧ length lm < 21.
Proof.
  rewrite <- detectGesture_None. unfold predictWebcam.
  destruct (landmarkerReady v), (videoMounted v); simpl;
    try (split; [discriminate|intros (? & ? & _); discriminate]).
  case_bool_decide as Hr.
  - destruct (detectGesture (landmarks v)) as [g|]; simpl.
    + destruct (smooth s g (length (landmarks v))).
      split; [discriminate|]. intros (_ & _ & _ & ?). discriminate.
    + split; [|reflexivity]. intros _. repeat split; [exact Hr].
  - split; [discriminate|]. intros (_ & _ & ? & _). contradiction.
Qed.

Lemma predictLoop_cons (s : Smoothing) (v : VideoFrame) (frames : list VideoFrame) :
  predictLoop s (v :: frames) =
  match predictWebcam s v with
  | None => (s, [], Crashed)
  | Some o =>
      let updates := match emitted o with Some e => [e] | None => [] end in
      if rescheduled o then
        let '(s', later, status) := predictLoop (refs o) frames in
        (s', updates ++ later, status)
      else (refs o, updates, Stopped)
  end.
Proof. reflexivity. Qed.

Lemma smoothAll_cons (s : Smoothing) (g : GestureType) (hands : nat)
    (frames : list (GestureType * nat)) :
  smoothAll s ((g, hands) :: frames) =
  ((smoothAll (smooth s g hands).1 frames).1,
   (smooth s g hands).2 :: (smoothAll (smooth s g hands).1 frames).2).
Proof.
  simpl. destruct (smooth s g hands) as [s1 out]. simpl.
  destruct (smoothAll s1 frames). reflexivity.
Qed.

Lemma smoothAll_app (s : Smoothing) (frames more : list (GestureType * nat)) :
  smoothAll s (frames ++ more) =
  ((smoothAll (smoothAll s frames).1 more).1,
   (smoothAll s frames).2 ++ (smoothAll (smoothAll s frames).1 more).2).
Proof.
  revert s. induction frames as [|[g hands] frames IH]; intros s.
  - simpl. destruct (smoothAll s more). reflexivity.
  - rewrite <- app_comm_cons, !smoothAll_cons, IH. reflexivity.
Qed.

Lemma smoothAll_length (s : Smoothing) (frames : list (GestureType * nat)) :
  length (smoothAll s frames).2 = length frames.
Proof.
  revert s. induction frames as [|[g hands] frames IH]; intros s; [reflexivity|].
  rewrite smoothAll_cons. simpl. rewrite IH. reflexivity.
Qed.

Lemma rawFrames_cons (v : VideoFrame) (frames : list VideoFrame) :
  rawFrames (v :: frames) =
  match (if bool_decide (2 ≤ readyState v)
         then (λ g, (g, length (landmarks v))) <$> detectGesture (landmarks v)
         else None) with
  | Some f => f :: rawFrames frames
  | None => rawFrames frames
  end.
Proof. reflexivity. Qed.

(** While the landmarker and the video are there and every hand has its
    21 landmarks, the loop never stops: it is the debouncer run over the
    analysed frames, the frames that are not ready being skipped. *)
Theorem predictLoop_is_smoothAll (s : Smoothing) (frames : list VideoFrame) :
  Forall healthy frames →
  predictLoop s frames =
  ((smoothAll s (rawFrames frames)).1,
   updatesOf (smoothAll s (rawFrames frames)).2,
   Running).
Proof.
  intros Hall. revert s. induction Hall as [|v frames Hv Hall IH]; intros s; [reflexivity|].
  rewrite predictLoop_cons, rawFrames_cons.
  destruct Hv as (Hl & Hm & Hlm). unfold predictWebcam. rewrite Hl, Hm.
  cbn [negb orb].
  case_bool_decide as Hr.
  - destruct (detectGesture (landmarks v)) as [g|] eqn:Eg.
    + cbn [fmap option_fmap option_map mbind option_bind]. rewrite smoothAll_cons.
      destruct (smooth s g (length (landmarks v))) as [s1 out].
      cbn [refs emitted rescheduled fst snd]. rewrite IH.
      unfold updatesOf. destruct out; reflexivity.
    + apply detectGesture_None in Eg as (lm & Hlm0 & Hlt).
      apply Hlm in Hlm0. lia.
  - cbn [refs emitted rescheduled]. rewrite IH. reflexivity.
Qed.

Lemma healthy_pointingFrame : healthy pointingFrame.
Proof.
  split; [reflexivity|]. split; [reflexivity|].
  intros lm [= <-]. unfold pointingHand. rewrite length_insert, length_replicate. lia.
Qed.

Lemma healthy_loadingFrame : healthy loadingFrame.
Proof. split; [reflexivity|]. split; [reflexivity|]. intros lm [=]. Qed.

Lemma predictLoop_is_smoothAll_witness :
  predictLoop initialSmoothing [pointingFrame; loadingFrame; pointingFrame] =
  ((smoothAll initialSmoothing (rawFrames [pointingFrame; loadingFrame; pointingFrame])).1,
   updatesOf (smoothAll initialSmoothing
                (rawFrames [pointingFrame; loadingFrame; pointingFrame])).2,
   Running).
Proof.
  apply (predictLoop_is_smoothAll initialSmoothing
           [pointingFrame; loadingFrame; pointingFrame]).
  repeat constructor; first [apply healthy_pointingFrame | apply healthy_loadingFrame].
Defined.

(* --------------------------------------------------------------------- *)
(** ** The app *)
(* --------------------------------------------------------------------- *)

Lemma smooth_emitted (s s' : Smoothing) (g : GestureType) (hands : nat) (e : HandState) :
  smooth s g hands = (s', Some e) →
  lastEmittedGesture s' = gesture e ∧ gesture e ≠ lastEmittedGesture s ∧
  isTracking e = bool_decide (0 < hands).
Proof.
  rewrite smooth_unfold. cbv zeta. case_bool_decide as H; [|discriminate].
  intros [= <- <-]. simpl. split; [reflexivity|]. split; [apply H|reflexivity].
Qed.

Lemma smooth_silent (s s' : Smoothing) (g : GestureType) (hands : nat) :
  smooth s g hands = (s', None) → lastEmittedGesture s' = lastEmittedGesture s.
Proof.
  rewrite smooth_unfold. cbv zeta. case_bool_decide as H; [discriminate|].
  intros [= <-]. reflexivity.
Qed.

Lemma detectGesture_hands (landmarks : list (list Landmark)) (g : GestureType) :
  detectGesture landmarks = Some g → g ≠ RESET → 0 < length landmarks.
Proof.
  unfold detectGesture. case_bool_decide as H; [intros _ _; exact H|].
  intros [= <-] Hne. contradiction.
Qed.

Lemma predictWebcam_cases (s : Smoothing) (v : VideoFrame) (o : FrameOutcome) :
  predictWebcam s v = Some o →
  (refs o = s ∧ emitted o = None) ∨
  (∃ g, detectGesture (landmarks v) = Some g ∧
        smooth s g (length (landmarks v)) = (refs o, emitted o)).
Proof.
  unfold predictWebcam.
  destruct (negb (landmarkerReady v) || negb (videoMounted v)).
  { intros [= <-]. left. split; reflexivity. }
  case_bool_decide.
  - destruct (detectGesture (landmarks v)) as [g|]; [|discriminate]. simpl.
    destruct (smooth s g (length (landmarks v))) as [s1 out] eqn:E.
    intros [= <-]. right. exists g. split; [reflexivity|exact E].
  - intros [= <-]. left. split; reflexivity.
Qed.

Lemma predictWebcam_inSync (s : Smoothing) (handState : HandState) (v : VideoFrame)
    (o : FrameOutcome) :
  inSync s handState → predictWebcam s v = Some o →
  inSync (refs o) (App.setHandStates handState
                     match emitted o with Some e => [e] | None => [] end).
Proof.
  intros (Hs & Hg & Ht) Ho.
  destruct (predictWebcam_cases s v o Ho) as [[-> ->]|(g & Hdet & Hsm)].
  { repeat split; assumption || apply Hs. }
  pose proof (smooth_settled s g (length (landmarks v)) (proj1 Hs)) as Hs'.
  rewrite Hsm in Hs'. simpl in Hs'.
  destruct (emitted o) as [e|].
  - destruct (smooth_emits_raw _ _ _ _ _ Hs Hsm) as [He _].
    destruct (smooth_emitted _ _ _ _ _ Hsm) as (Hl & _ & Htr).
    split; [exact Hs'|]. simpl. split; [symmetry; exact Hl|].
    intros Hne. rewrite Htr. apply bool_decide_eq_true.
    apply (detectGesture_hands _ g Hdet). congruence.
  - apply smooth_silent in Hsm. split; [exact Hs'|]. simpl.
    split; [congruence|exact Ht].
Qed.

Lemma setHandStates_app (handState : HandState) (updates later : list HandState) :
  App.setHandStates handState (updates ++ later) =
  App.setHandStates (App.setHandStates handState updates) later.
Proof. apply foldl_app. Qed.

Lemma predictLoop_inSync (frames : list VideoFrame) (s : Smoothing) (handState : HandState) :
  inSync s handState →
  inSync (predictLoop s frames).1.1
         (App.setHandStates handState (predictLoop s frames).1.2).
Proof.
  revert s handState. induction frames as [|v frames IH]; intros s handState H; [exact H|].
  rewrite predictLoop_cons.
  destruct (predictWebcam s v) as [o|] eqn:Ho; [|exact H].
  pose proof (predictWebcam_inSync s handState v o H Ho) as H1.
  cbv zeta. destruct (rescheduled o); [|exact H1].
  specialize (IH (refs o) _ H1).
  destruct (predictLoop (refs o) frames) as [[s' later] status].
  simpl in *. rewrite setHandStates_app. exact IH.
Qed.

Lemma inSync_initial : inSync initialSmoothing App.initialHandState.
Proof. split; [exact settled_initial|]. split; [reflexivity|]. intros H. contradiction. Qed.

Lemma run_unfold (frames : list VideoFrame) :
  App.run frames =
  ((predictLoop initialSmoothing frames).1.1,
   App.setHandStates App.initialHandState (predictLoop initialSmoothing frames).1.2,
   (predictLoop initialSmoothing frames).2).
Proof.
  unfold App.run. destruct (predictLoop initialSmoothing frames) as [[s ups] st]. reflexivity.
Qed.

(** Whatever the camera delivers, the [handState] of the app shows the
    label the debouncer emitted last; while it shows a label other than
    RESET it says that a hand is tracked, so the hint is hidden whenever the
    celebration is on. *)
Theorem app_shows_last_emitted (frames : list VideoFrame) :
  let '(s, handState, _) := App.run frames in
  gesture handState = lastEmittedGesture s ∧
  (gesture handState ≠ RESET → isTracking handState = true) ∧
  (App.celebrates handState = true → App.showsHint handState = false).
Proof.
  rewrite run_unfold.
  destruct (predictLoop_inSync frames _ _ inSync_initial) as (_ & Hg & Ht).
  split; [exact Hg|]. split; [exact Ht|].
  unfold App.celebrates, App.showsHint. intros Hc. apply bool_decide_eq_true in Hc.
  rewrite Ht; [reflexivity|]. rewrite Hc. discriminate.
Qed.

Lemma predictLoop_app (s : Smoothing) (frames more : list VideoFrame) :
  predictLoop s (frames ++ more) =
  match (predictLoop s frames).2 with
  | Running =>
      ((predictLoop (predictLoop s frames).1.1 more).1.1,
       (predictLoop s frames).1.2 ++ (predictLoop (predictLoop s frames).1.1 more).1.2,
       (predictLoop (predictLoop s frames).1.1 more).2)
  | _ => predictLoop s frames
  end.
Proof.
  revert s. induction frames as [|v frames IH]; intros s.
  - simpl. destruct (predictLoop s more) as [[? ?] ?]. reflexivity.
  - rewrite <- app_comm_cons, !predictLoop_cons.
    destruct (predictWebcam s v) as [o|]; [|reflexivity].
    cbv zeta. destruct (rescheduled o); [|reflexivity].
    rewrite IH.
    destruct (predictLoop (refs o) frames) as [[s1 ups1] st1]. simpl.
    destruct st1; try reflexivity.
    destruct (predictLoop s1 more) as [[s2 ups2] st2]. simpl.
    rewrite app_assoc. reflexivity.
Qed.

Lemma predictLoop_quiet (frames : list VideoFrame) (s : Smoothing) :
  settled s →
  Forall (λ v, detectGesture (landmarks v) = Some (lastEmittedGesture s)) frames →
  (predictLoop s frames).1.2 = [].
Proof.
  intros Hs Hall. revert s Hs Hall. induction frames as [|v frames IH]; intros s Hs Hall;
    [reflexivity|].
  apply Forall_cons in Hall as [Hv Hall].
  rewrite predictLoop_cons.
  destruct (predictWebcam s v) as [o|] eqn:Ho; [|reflexivity].
  assert (Ho' : refs o = s ∨
                (settled (refs o) ∧ lastEmittedGesture (refs o) = lastEmittedGesture s)).
  { destruct (predictWebcam_cases s v o Ho) as [[-> _]|(g & Hdet & Hsm)]; [left; reflexivity|].
    right. pose proof (smooth_settled s g (length (landmarks v)) (proj1 Hs)) as Hs'.
    rewrite Hsm in Hs'. split; [exact Hs'|].
    destruct (emitted o) as [e|].
    - destruct (smooth_emits_raw _ _ _ _ _ Hs Hsm) as [He _].
      destruct (smooth_emitted _ _ _ _ _ Hsm) as (_ & Hne & _). congruence.
    - apply (smooth_silent _ _ _ _ Hsm). }
  assert (He : emitted o = None).
  { destruct (predictWebcam_cases s v o Ho) as [[_ ->]|(g & Hdet & Hsm)]; [reflexivity|].
    destruct (emitted o) as [e|]; [|reflexivity].
    destruct (smooth_emits_raw _ _ _ _ _ Hs Hsm) as [He _].
    destruct (smooth_emitted _ _ _ _ _ Hsm) as (_ & Hne & _). congruence. }
  rewrite He. cbv zeta. destruct (rescheduled o); [|reflexivity].
  assert (IH' : (predictLoop (refs o) frames).1.2 = []).
  { destruct Ho' as [->|[Hs' Hl]]; [apply IH; assumption|].
    apply IH; [exact Hs'|]. rewrite Hl. exact Hall. }
  destruct (predictLoop (refs o) frames) as [[s' later] status]. simpl in *. exact IH'.
Qed.

(** Frames whose raw label is the label the app already shows change
    nothing, whether a hand is there or not.  In particular a closed fist
    held up from the start never hides the hint, and a hand that leaves
    after a fist is not reported. *)
Theorem same_label_is_never_reported (frames more : list VideoFrame) :
  Forall (λ v, detectGesture (landmarks v) = Some (gesture (App.run frames).1.2)) more →
  (App.run (frames ++ more)).1.2 = (App.run frames).1.2.
Proof.
  rewrite !run_unfold. cbn [fst snd]. intros Hall.
  destruct (predictLoop_inSync frames _ _ inSync_initial) as (Hs & Hg & _).
  rewrite predictLoop_app.
  destruct (predictLoop initialSmoothing frames).2; try reflexivity.
  cbn [fst snd]. rewrite setHandStates_app.
  rewrite (predictLoop_quiet more _ Hs); [reflexivity|].
  rewrite <- Hg. exact Hall.
Qed.

Lemma detectGesture_fist : detectGesture (landmarks fistFrame) = Some RESET.
Proof. vm_compute. reflexivity. Qed.

Lemma same_label_is_never_reported_witness :
  (App.run ([] ++ [fistFrame; fistFrame; fistFrame])).1.2 = (App.run []).1.2.
Proof.
  apply (same_label_is_never_reported [] [fistFrame; fistFrame; fistFrame]).
  repeat constructor; exact detectGesture_fist.
Defined.

(* --------------------------------------------------------------------- *)
(** ** Glitches and alternation *)
(* --------------------------------------------------------------------- *)

Lemma two_frames_fresh (s : Smoothing) (g : GestureType) (h1 h2 : nat) :
  settled s → fresh g (smoothAll s [(g, h1); (g, h2)]).1.
Proof.
  intros Hs. pose proof (proj1 Hs) as Hlen.
  apply settledb_spec in Hs.
  destruct s as [buffer last]. unfold BUFFER_SIZE in Hlen. simpl in Hlen.
  enum_buffer buffer Hlen; destruct last, g;
    first [ discriminate Hs
          | vm_compute;
            split; [reflexivity | first [left; reflexivity | right; eexists; reflexivity]] ].
Qed.

Lemma glitch_step (s : Smoothing) (g h : GestureType) (hands : nat) :
  fresh g s → (smooth s h hands).2 = None ∧ sustained g (smooth s h hands).1.
Proof.
  destruct s as [buffer last]. intros [Hl [Hb|[older Hb]]]; simpl in Hl, Hb; subst.
  - destruct g, h; (split; [reflexivity | apply sustainedb_spec; reflexivity]).
  - destruct older, g, h; (split; [reflexivity | apply sustainedb_spec; reflexivity]).
Qed.

Lemma all_None_replicate {A : Type} (outs : list (option A)) :
  Forall (λ out, out = None) outs → outs = replicate (length outs) None.
Proof.
  induction 1 as [|out outs -> _ IH]; [reflexivity|]. simpl. rewrite <- IH. reflexivity.
Qed.





(** A deviating raw label in a single frame is ignored: in any run, after
    two consecutive frames of [g], one frame of any label followed by
    frames of [g] emits nothing. *)
Theorem single_frame_glitch_is_ignored (frames more : list (GestureType * nat))
    (g h : GestureType) (h1 h2 h3 : nat) :
  Forall (λ f, f.1 = g) more →
  let outs := (smoothAll initialSmoothing
                 (frames ++ [(g, h1); (g, h2)] ++ (h, h3) :: more)).2 in
  drop (length frames + 2) outs = replicate (1 + length more) None.
Proof.
  intros Hmore outs. subst outs.
  rewrite !smoothAll_app. cbn [snd]. rewrite app_assoc.
  rewrite drop_app_length'
    by (rewrite length_app, !smoothAll_length; reflexivity).
  pose proof (smoothAll_settled frames initialSmoothing settled_initial) as Hs.
  pose proof (two_frames_fresh _ g h1 h2 Hs) as Hf.
  set (s2 := (smoothAll (smoothAll initialSmoothing frames).1 [(g, h1); (g, h2)]).1) in *.
  rewrite smoothAll_cons. cbn [snd].
  destruct (glitch_step s2 g h h3 Hf) as [-> Hsus].
  pose proof (smoothAll_sustained more g _ Hsus Hmore) as Hnone.
  apply all_None_replicate in Hnone. rewrite smoothAll_length in Hnone.
  rewrite Hnone. reflexivity.
Qed.

Lemma single_frame_glitch_is_ignored_witness :
  drop (length [(THREE, 1)] + 2)
    (smoothAll initialSmoothing
       ([(THREE, 1)] ++ [(ONE, 1); (ONE, 1)] ++ (TWO, 1) :: [(ONE, 1); (ONE, 1)])).2 =
  replicate (1 + length [(ONE, 1); (ONE, 1)]) None.
Proof.
  apply (single_frame_glitch_is_ignored [(THREE, 1)] [(ONE, 1); (ONE, 1)] ONE TWO 1 1 1).
  repeat constructor.
Defined.

Lemma smooth_buffer (s : Smoothing) (g : GestureType) (hands : nat) :
  gestureBuffer (smooth s g hands).1 = pushGesture (gestureBuffer s) g.
Proof. rewrite smooth_unfold. cbv zeta. case_bool_decide; reflexivity. Qed.

Lemma pushGesture_three (buffer : list GestureType) (a b c : GestureType) :
  length buffer ≤ BUFFER_SIZE →
  pushGesture (pushGesture (pushGesture buffer a) b) c = [a; b; c].
Proof.
  unfold BUFFER_SIZE. intros H.
  destruct buffer as [|? [|? [|? [|? ?]]]]; simpl in H; try lia; reflexivity.
Qed.

Lemma alternate_third (s : Smoothing) (a b : GestureType) (hands : nat) :
  pushGesture (gestureBuffer s) a = [a; b; a] → a ≠ b →
  lastEmittedGesture (smooth s a hands).1 = a.
Proof.
  intros Hb Hne. rewrite smooth_unfold. cbv zeta. rewrite Hb.
  destruct a, b, (lastEmittedGesture s); try congruence; vm_compute; reflexivity.
Qed.

Lemma alternate_start (s : Smoothing) (a b : GestureType) (h1 h2 h3 : nat) :
  length (gestureBuffer s) ≤ BUFFER_SIZE → a ≠ b →
  let s3 := (smooth (smooth (smooth s a h1).1 b h2).1 a h3).1 in
  gestureBuffer s3 = [a; b; a] ∧ lastEmittedGesture s3 = a.
Proof.
  intros Hlen Hne s3. subst s3. split.
  - rewrite !smooth_buffer. apply pushGesture_three, Hlen.
  - apply (alternate_third _ a b); [|exact Hne].
    rewrite !smooth_buffer. apply pushGesture_three, Hlen.
Qed.

Lemma smoothAll_three (s : Smoothing) (f1 f2 f3 : GestureType * nat) :
  (smoothAll s [f1; f2; f3]).1 =
  (smooth (smooth (smooth s f1.1 f1.2).1 f2.1 f2.2).1 f3.1 f3.2).1.
Proof.
  destruct f1 as [g1 n1], f2 as [g2 n2], f3 as [g3 n3]. cbn [smoothAll fst snd].
  destruct (smooth s g1 n1) as [s1 o1]. cbn [fst].
  destruct (smooth s1 g2 n2) as [s2 o2]. cbn [fst].
  destruct (smooth s2 g3 n3) as [s3 o3]. reflexivity.
Qed.

Lemma alternate_step (s : Smoothing) (a b : GestureType) (hands : nat) :
  gestureBuffer s = [a; b; a] → lastEmittedGesture s = a → a ≠ b →
  smooth s b hands =
  ({| gestureBuffer := [b; a; b]; lastEmittedGesture := b |}, report (b, hands)).
Proof.
  destruct s as [buffer last]. simpl. intros -> -> Hne.
  destruct a, b; try congruence; reflexivity.
Qed.

Lemma alternate_run (hands : list nat) (s : Smoothing) (a b : GestureType) :
  gestureBuffer s = [a; b; a] → lastEmittedGesture s = a → a ≠ b →
  (smoothAll s (alternate b a hands)).2 = report <$> alternate b a hands.
Proof.
  revert s a b. induction hands as [|h hands IH]; intros s a b Hb Hl Hne; [reflexivity|].
  cbn [alternate]. rewrite smoothAll_cons, (alternate_step s a b h Hb Hl Hne).
  cbn [fst snd]. rewrite fmap_cons. f_equal.
  apply IH; [reflexivity|reflexivity|congruence].
Qed.

(** The debouncer does not damp an alternation: when the raw label
    alternates between two labels from frame to frame, every frame from the
    fourth on emits its own raw label. *)
Theorem alternation_emits_every_frame (frames : list (GestureType * nat))
    (a b : GestureType) (h1 h2 h3 : nat) (hands : list nat) :
  a ≠ b →
  let outs := (smoothAll initialSmoothing
                 (frames ++ alternate a b (h1 :: h2 :: h3 :: hands))).2 in
  drop (length frames + 3) outs = report <$> alternate b a hands.
Proof.
  intros Hne outs. subst outs.
  change (alternate a b (h1 :: h2 :: h3 :: hands))
    with ([(a, h1); (b, h2); (a, h3)] ++ alternate b a hands).
  rewrite !smoothAll_app. cbn [snd]. rewrite app_assoc.
  rewrite drop_app_length'
    by (rewrite length_app, !smoothAll_length; reflexivity).
  pose proof (smoothAll_settled frames initialSmoothing settled_initial) as Hs.
  rewrite smoothAll_three. cbn [fst snd].
  destruct (alternate_start _ a b h1 h2 h3 (proj1 Hs) Hne) as [Hb Hl].
  apply alternate_run; assumption.
Qed.

Lemma alternation_emits_every_frame_witness :
  drop (length [(THREE, 1)] + 3)
    (smoothAll initialSmoothing
       ([(THREE, 1)] ++ alternate ONE TWO [1; 1; 1; 1; 1])).2 =
  report <$> alternate TWO ONE [1; 1].
Proof.
  apply (alternation_emits_every_frame [(THREE, 1)] ONE TWO 1 1 1 [1; 1]). discriminate.
Defined.

(* --------------------------------------------------------------------- *)
(** ** Labels and open fingers *)
(* --------------------------------------------------------------------- *)

(** The label names the number of open fingers: ONE is the index finger
    alone, TWO is the index finger with the thumb or the middle finger and
    nothing else, THREE is index and middle with the pinky closed and three
    or four fingers open, LOVE is the four long fingers whatever the thumb
    does; a closed index finger always gives RESET. *)
Theorem labels_count_open_fingers (f : Fingers) :
  (indexOpen f = false → classifyFingers f = RESET) ∧
  (classifyFingers f = ONE ↔
     openCount f = 1 ∧ indexOpen f = true) ∧
  (classifyFingers f = TWO ↔
     openCount f = 2 ∧ indexOpen f = true ∧ (thumbOpen f = true ∨ middleOpen f = true)) ∧
  (classifyFingers f = THREE ↔
     indexOpen f = true ∧ middleOpen f = true ∧ pinkyOpen f = false ∧
     (openCount f = 3 ∨ openCount f = 4)) ∧
  (classifyFingers f = LOVE ↔
     4 ≤ openCount f ∧ (thumbOpen f = false ∨ openCount f = 5)).
Proof.
  destruct f as [[] [] [] [] []]; vm_compute; intuition (discriminate || lia).
Qed.

(* --------------------------------------------------------------------- *)
(** ** RESET frames and the shared arrays *)
(* --------------------------------------------------------------------- *)

Lemma mount_aliased browser random calls (heap : Heap) :
  mount browser random calls = Some heap → aliased heap.
Proof.
  unfold mount. destruct (makeTargets browser random calls) as [[targets k]|]; [|discriminate].
  simpl. intros [= <-]. split; reflexivity.
Qed.

Lemma morphFrames_aliased P frames (h : Heap) :
  wellSized P h → aliased h → aliased (morphFrames P frames h).
Proof.
  revert h. induction frames as [|[g t] frames IH]; intros h Hw Ha; [exact Ha|].
  rewrite morphFrames_cons. apply IH.
  - apply morphParticles_wellSized, Hw.
  - apply morphParticles_attributes, Hw.
Qed.

Lemma reset_step P t (h : Heap) i axis :
  wellSized P h → aliased h → i < P → axis < 3 →
  read (morphParticles P RESET t h) CurrentPositions (i * 3 + axis) =
    (read h CurrentPositions (i * 3 + axis) + idleOffset t i axis * 0.1)%R ∧
  read (morphParticles P RESET t h) CurrentColors (i * 3 + axis) =
    read h CurrentColors (i * 3 + axis).
Proof.
  intros Hw [Hp Hc] Hi Hax.
  destruct (morphParticles_slot P RESET t h i axis Hw Hi Hax) as [-> ->].
  unfold effectiveTarget, read. rewrite Hp, Hc.
  rewrite decide_True by reflexivity.
  unfold approach, speedOf. rewrite decide_False by discriminate.
  unfold MORPH_SPEED. split; ring.
Qed.

Lemma held_cons g t times : held g (t :: times) = (g, t) :: held g times.
Proof. reflexivity. Qed.

Lemma reset_frames P times (h : Heap) i axis :
  wellSized P h → aliased h → i < P → axis < 3 →
  read (morphFrames P (held RESET times) h) CurrentPositions (i * 3 + axis) =
    (read h CurrentPositions (i * 3 + axis) + idleDrift times i axis)%R ∧
  read (morphFrames P (held RESET times) h) CurrentColors (i * 3 + axis) =
    read h CurrentColors (i * 3 + axis).
Proof.
  intros Hw Ha Hi Hax. revert h Hw Ha.
  induction times as [|t times IH]; intros h Hw Ha.
  - simpl. split; [lra|reflexivity].
  - rewrite held_cons, morphFrames_cons.
    destruct (IH (morphParticles P RESET t h)) as [-> ->].
    + apply morphParticles_wellSized, Hw.
    + apply morphParticles_attributes, Hw.
    + destruct (reset_step P t h i axis Hw Ha Hi Hax) as [-> ->].
      split; [|reflexivity]. simpl. lra.
Qed.

Lemma halves_unit : ∀ k : nat, (0 <= halves k < 1)%R.
Proof. intros k. unfold halves. lra. Qed.

(** C9.  What the frame takes as the cloud target under RESET is the array
    [targets[RESET].positions] as it finds it, and the position attribute
    writes every new position into that very array.  So only the first
    frame after the mount perturbs the cloud that was generated; at the
    next RESET frame the effective target of a particle is the generated
    cloud target plus a tenth of the first frame's offset plus the new
    offset: the perturbation of a frame persists in the target, and the
    offset from the generated cloud exceeds 0.5. *)
Theorem reset_target_follows_the_particle (browser : Browser) (random : Random)
    (calls : nat) (mounted : Heap) (t1 t2 : R) (i axis : nat) :
  mount browser random calls = Some mounted →
  i < PARTICLE_COUNT → axis < 3 →
  let cloud := read mounted (TargetPositions RESET) (i * 3 + axis) in
  effectiveTarget mounted RESET t1 i axis = (cloud + idleOffset t1 i axis)%R ∧
  effectiveTarget (useFrame RESET t1 mounted) RESET t2 i axis =
    (cloud + idleOffset t1 i axis * 0.1 + idleOffset t2 i axis)%R.
Proof.
  intros Hm Hi Hax cloud. subst cloud.
  pose proof (mount_wellSized _ _ _ _ Hm) as Hw.
  pose proof (mount_aliased _ _ _ _ Hm) as Ha.
  split.
  - unfold effectiveTarget. rewrite decide_True by reflexivity. reflexivity.
  - unfold effectiveTarget at 1. rewrite decide_True by reflexivity.
    unfold useFrame.
    destruct (morphParticles_attributes PARTICLE_COUNT RESET t1 mounted Hw) as [Hp _].
    rewrite (read_ext (morphParticles PARTICLE_COUNT RESET t1 mounted)
               (morphParticles PARTICLE_COUNT RESET t1 mounted)
               (TargetPositions RESET) CurrentPositions (i * 3 + axis))
      by (rewrite Hp; reflexivity).
    destruct (reset_step PARTICLE_COUNT t1 mounted i axis Hw Ha Hi Hax) as [-> _].
    rewrite (read_ext mounted mounted CurrentPositions (TargetPositions RESET) (i * 3 + axis))
      by (rewrite (proj1 Ha); reflexivity).
    reflexivity.
Qed.

(** Two RESET frames at elapsed time pi after the mount: at the second one
    the effective x target of particle 0 is 0.55 away from the cloud target
    that was generated. *)
Lemma reset_target_follows_the_particle_witness :
  ∃ mounted : Heap,
    mount headlessBrowser halves 0 = Some mounted ∧
    (effectiveTarget (useFrame RESET PI mounted) RESET PI 0 0 -
     read mounted (TargetPositions RESET) (0 * 3 + 0) = 0.55)%R.
Proof.
  destruct (mount_total headlessBrowser halves 0 halves_unit) as [mounted Hm].
  exists mounted. split; [exact Hm|].
  destruct (reset_target_follows_the_particle headlessBrowser halves 0 mounted PI PI 0 0 Hm
              ltac:(unfold PARTICLE_COUNT; lia) ltac:(lia)) as [_ H].
  rewrite H. unfold idleOffset.
  replace (PI * 0.5 + INR 0)%R with (PI / 2)%R by (simpl; lra).
  rewrite sin_PI2. lra.
Defined.

(** Under RESET the particles are never drawn back to the cloud that was
    generated: the geometry attributes share their arrays with the RESET
    target, so the target a frame reads is the particle's own position.
    After any history, RESET frames add a tenth of each frame's idle offset
    to x and y and leave z and the colours as they are. *)
Theorem reset_frames_only_jitter (browser : Browser) (random : Random) (calls : nat)
    (mounted : Heap) (frames : list (GestureType * R)) (times : list R) (i axis : nat) :
  mount browser random calls = Some mounted →
  i < PARTICLE_COUNT → axis < 3 →
  read (useFrames (held RESET times) (useFrames frames mounted))
       CurrentPositions (i * 3 + axis) =
    (read (useFrames frames mounted) CurrentPositions (i * 3 + axis) +
     idleDrift times i axis)%R ∧
  read (useFrames (held RESET times) (useFrames frames mounted))
       CurrentColors (i * 3 + axis) =
    read (useFrames frames mounted) CurrentColors (i * 3 + axis).
Proof.
  intros Hm Hi Hax. unfold useFrames.
  apply reset_frames; [| |exact Hi|exact Hax].
  - apply morphFrames_wellSized, (mount_wellSized _ _ _ _ Hm).
  - apply morphFrames_aliased; [apply (mount_wellSized _ _ _ _ Hm)|].
    apply (mount_aliased _ _ _ _ Hm).
Qed.

Lemma reset_frames_only_jitter_witness :
  ∃ mounted : Heap,
    mount headlessBrowser halves 0 = Some mounted ∧
    read (useFrames (held RESET [1%R]) (useFrames [(ONE, 0%R)] mounted))
         CurrentPositions (0 * 3 + 0) =
      (read (useFrames [(ONE, 0%R)] mounted) CurrentPositions (0 * 3 + 0) +
       idleDrift [1%R] 0 0)%R.
Proof.
  destruct (mount_total headlessBrowser halves 0 halves_unit) as [mounted Hm].
  exists mounted. split; [exact Hm|].
  exact (proj1 (reset_frames_only_jitter headlessBrowser halves 0 mounted [(ONE, 0%R)]
                  [1%R] 0 0 Hm ltac:(unfold PARTICLE_COUNT; lia) ltac:(lia))).
Defined.

(* --------------------------------------------------------------------- *)
(** ** The width of a text field *)
(* --------------------------------------------------------------------- *)

Lemma canvasWidth_60 (browser : Browser) (text : string) :
  (0 <= measureTextWidth browser arialFont text)%R → 60 ≤ canvasWidth browser text.
Proof.
  intros H. unfold canvasWidth.
  assert (0 ≤ Zceil (measureTextWidth browser arialFont text))%Z.
  { apply le_IZR. pose proof (Zceil_bound (measureTextWidth browser arialFont text)). lra. }
  lia.
Qed.

(** A sampled text field is 20 units wide whatever the text: every
    particle has x in [-10, 10), z = 0, and y within 1800 / width of zero,
    which is at most 30 when the measured width is not negative. *)
Theorem text_field_is_twenty_wide (browser : Browser) (random : Random)
    (calls particleCount : nat) (text : string) (d : ParticleData) (calls' i : nat) :
  hasContext2d browser = true →
  litPixels browser text ≠ [] →
  generateTextParticles browser random calls text particleCount = Some (d, calls') →
  i < particleCount →
  ∃ px py : R,
    positions d !! (i * 3) = Some px ∧
    positions d !! (i * 3 + 1) = Some py ∧
    positions d !! (i * 3 + 2) = Some 0%R ∧
    (- 10 <= px < 10)%R ∧
    (- (1800 / INR (canvasWidth browser text)) < py <=
       1800 / INR (canvasWidth browser text))%R ∧
    ((0 <= measureTextWidth browser arialFont text)%R → (- 30 < py <= 30)%R).
Proof.
  intros Hctx Hlit Hgen Hi.
  destruct (generateTextParticles_sampled _ _ _ _ _ _ _ Hctx Hlit Hgen)
    as (_ & _ & Hall).
  destruct (Hall i Hi) as (pixelIndex & Hlt & _ & _ & Hx & Hy & Hz).
  set (w := canvasWidth browser text) in *.
  assert (Hw : 0 < w) by (destruct w; [simpl in Hlt; lia|lia]).
  assert (HwR : (0 < INR w)%R) by (apply lt_0_INR; exact Hw).
  rewrite canvasHeight_eq in *.
  assert (Hcol : pixelIndex mod w < w) by (apply Nat.mod_upper_bound; lia).
  assert (Hrow : pixelIndex / w < 180) by (apply Nat.Div0.div_lt_upper_bound; lia).
  apply lt_INR in Hcol. apply lt_INR in Hrow.
  pose proof (pos_INR (pixelIndex mod w)) as Hc0.
  pose proof (pos_INR (pixelIndex / w)) as Hr0.
  assert (H180 : INR 180 = 180%R) by (rewrite INR_IZR_INZ; reflexivity).
  assert (H90 : (INR 180 / 2 = 90)%R) by lra.
  rewrite H90 in Hy. rewrite H180 in Hrow.
  eexists _, _. split; [exact Hx|]. split; [exact Hy|]. split; [exact Hz|].
  assert (Hinv : (0 < / INR w)%R) by (apply Rinv_0_lt_compat; exact HwR).
  assert (Hone : (INR w * / INR w = 1)%R) by (apply Rinv_r; lra).
  unfold Rdiv. split; [|split].
  - split; nra.
  - split; nra.
  - intros Hm. apply canvasWidth_60 in Hm. fold w in Hm. apply le_INR in Hm.
    assert (H60 : INR 60 = 60%R) by (rewrite INR_IZR_INZ; reflexivity).
    rewrite H60 in Hm. split; nra.
Qed.

Lemma text_field_is_twenty_wide_witness :
  ∃ (d : ParticleData) (px : R),
    generateTextParticles antialiasingBrowser halves 0 loveText 1 = Some (d, 1) ∧
    positions d !! (0 * 3) = Some px ∧ (- 10 <= px < 10)%R.
Proof.
  destruct antialiasing_sample as (d & Hgen & _).
  assert (Hne : litPixels antialiasingBrowser loveText ≠ [])
    by (rewrite litPixels_antialiasing; discriminate).
  destruct (text_field_is_twenty_wide antialiasingBrowser halves 0 1 loveText d 1 0
              eq_refl Hne Hgen ltac:(lia)) as (px & py & Hx & _ & _ & Hb & _).
  exists d, px. split; [exact Hgen|]. split; [exact Hx | exact Hb].
Defined.

(* --------------------------------------------------------------------- *)
(** ** The balloons *)
(* --------------------------------------------------------------------- *)

Import BalloonInstances.

Lemma makeBalloons_S random calls n :
  makeBalloons random calls (S n) =
  ((makeBalloon random calls).1 :: (makeBalloons random (makeBalloon random calls).2 n).1,
   (makeBalloons random (makeBalloon random calls).2 n).2).
Proof.
  simpl. destruct (makeBalloons random (calls + 8) n). reflexivity.
Qed.

Lemma makeBalloons_spec random n calls :
  (makeBalloons random calls n).2 = calls + 8 * n ∧
  length (makeBalloons random calls n).1 = n ∧
  ∀ i d, (makeBalloons random calls n).1 !! i = Some d →
         d = (makeBalloon random (calls + 8 * i)).1.
Proof.
  revert calls. induction n as [|n IH]; intros calls.
  - simpl. split; [lia|]. split; [reflexivity|]. intros i d H. discriminate.
  - rewrite makeBalloons_S. cbn [fst snd].
    destruct (IH (makeBalloon random calls).2) as (Hc & Hl & Hi).
    change (makeBalloon random calls).2 with (calls + 8) in *.
    split; [rewrite Hc; lia|]. split; [simpl; rewrite Hl; reflexivity|].
    intros [|i] d H.
    + injection H as <-. rewrite Nat.mul_0_r, Nat.add_0_r. reflexivity.
    + apply Hi in H. rewrite H. f_equal. f_equal. lia.
Qed.

Lemma makeBalloon_bounds random calls :
  (∀ k, 0 <= random k < 1)%R →
  let d := (makeBalloon random calls).1 in
  (- 20 <= vx (position d) < 20)%R ∧
  (- 50 < vy (position d) <= - 20)%R ∧
  (- 10 <= vz (position d) < 10)%R ∧
  (0.2 <= speed d < 0.5)%R ∧
  (0 <= wobbleOffset d < 2 * PI)%R ∧
  (2 <= wobbleSpeed d < 3)%R ∧
  ((0 <= hue (color d) < 0.1)%R ∨ (0.9 <= hue (color d) < 1)%R) ∧
  saturation (color d) = 0.9%R ∧ lightness (color d) = 0.6%R.
Proof.
  intros Hr. unfold makeBalloon. cbn [fst position speed wobbleOffset wobbleSpeed color
    vx vy vz hue saturation lightness].
  pose proof (Hr calls). pose proof (Hr (calls + 1)). pose proof (Hr (calls + 2)).
  pose proof (Hr (calls + 3)). pose proof (Hr (calls + 4)). pose proof (Hr (calls + 5)).
  pose proof (Hr (calls + 6)). pose proof PI_RGT_0.
  repeat split; try lra; try nra.
  destruct (decide (random (calls + 7)%nat > 0.5)%R); [left|right]; lra.
Qed.

(** The balloons are created below the screen: 150 of them, from 1200
    draws, each with x in [-20, 20], y in [-50, -20], z in [-10, 10], a
    rising speed in [0.2, 0.5], a wobble phase in [0, 2 pi], a wobble speed
    in [2, 3] and a hue in [0, 0.1] or [0.9, 1] at saturation 0.9 and
    lightness 0.6. *)
Theorem balloons_start_below_screen (random : Random) (calls : nat) :
  (∀ k, 0 <= random k < 1)%R →
  length (makeData random calls).1 = 150 ∧
  (makeData random calls).2 = calls + 1200 ∧
  ∀ i d, (makeData random calls).1 !! i = Some d →
    (- 20 <= vx (position d) <= 20)%R ∧
    (- 50 <= vy (position d) <= - 20)%R ∧
    (- 10 <= vz (position d) <= 10)%R ∧
    (0.2 <= speed d <= 0.5)%R ∧
    (0 <= wobbleOffset d <= 2 * PI)%R ∧
    (2 <= wobbleSpeed d <= 3)%R ∧
    ((0 <= hue (color d) <= 0.1)%R ∨ (0.9 <= hue (color d) <= 1)%R) ∧
    saturation (color d) = 0.9%R ∧ lightness (color d) = 0.6%R.
Proof.
  intros Hr. unfold makeData.
  destruct (makeBalloons_spec random count calls) as (Hc & Hl & Hi).
  split; [exact Hl|]. split; [exact Hc|].
  intros i d H. apply Hi in H. subst d.
  destruct (makeBalloon_bounds random (calls + 8 * i) Hr)
    as (Hx & Hy & Hz & Hs & Ho & Hw & Hh & Hsat & Hlight).
  split; [lra|]. split; [lra|]. split; [lra|]. split; [lra|]. split; [lra|].
  split; [lra|]. split; [destruct Hh; [left|right]; lra|]. split; assumption.
Qed.

(** The balloons made from draws that are all one half: balloon 0 starts
    at height -35. *)
Lemma balloons_start_below_screen_witness :
  length (makeData halves 0).1 = 150 ∧ (makeData halves 0).2 = 0 + 1200 ∧
  ∃ d, (makeData halves 0).1 !! 0 = Some d ∧
       vy (position d) = (- 35)%R ∧ (- 50 <= vy (position d) <= - 20)%R.
Proof.
  destruct (balloons_start_below_screen halves 0 halves_unit) as (H1 & H2 & H3).
  split; [exact H1|]. split; [exact H2|].
  exists (makeBalloon halves 0).1.
  assert (H0 : (makeData halves 0).1 !! 0 = Some (makeBalloon halves 0).1) by reflexivity.
  split; [exact H0|]. split; [|exact (proj1 (proj2 (H3 0 _ H0)))].
  unfold makeBalloon, halves. cbn [fst position vy]. lra.
Defined.

Lemma moveBalloon_spec random time d calls :
  (∀ k, 0 <= random k < 1)%R →
  let d' := (moveBalloon random time d calls).1.1 in
  let shown := (moveBalloon random time d calls).2 in
  flies d d' ∧ shows time d' shown ∧ (inFlight d → inFlight d') ∧ (inBox d → inBox d').
Proof.
  intros Hr. unfold moveBalloon, flies, restarts, shows, inFlight, inBox, fixedPart.
  pose proof (Hr calls). pose proof (Hr (calls + 1)).
  destruct (decide (vy (position d) + speed d > 25)%R) as [Hre|Hre];
    cbn [fst snd position speed wobbleOffset wobbleSpeed color vx vy vz
         shownAt shownScale shownColor].
  - split; [split; [reflexivity|right; lra]|].
    split; [repeat split; reflexivity|].
    split; intros (Hx & Hy & Hz & Hs); repeat split; lra.
  - split; [split; [reflexivity|left; repeat split; lra]|].
    split; [repeat split; reflexivity|].
    split; intros (Hx & Hy & Hz & Hs); repeat split; lra.
Qed.

Lemma useFrame_cons random time d rest calls :
  BalloonInstances.useFrame random time (d :: rest) calls =
  let m := moveBalloon random time d calls in
  let r := BalloonInstances.useFrame random time rest m.1.2 in
  (m.1.1 :: r.1.1, r.1.2, m.2 :: r.2).
Proof.
  cbn [BalloonInstances.useFrame].
  destruct (moveBalloon random time d calls) as [[d' calls'] shown].
  cbn [fst snd].
  destruct (BalloonInstances.useFrame random time rest calls') as [[rest' calls''] shownRest].
  reflexivity.
Qed.

Lemma useFrame_flies random time data calls :
  (∀ k, 0 <= random k < 1)%R →
  Forall2 flies data (BalloonInstances.useFrame random time data calls).1.1.
Proof.
  intros Hr. revert calls. induction data as [|d rest IH]; intros calls; [constructor|].
  rewrite useFrame_cons. cbv zeta. cbn [fst snd].
  constructor; [apply (moveBalloon_spec random time d calls Hr) | apply IH].
Qed.

Lemma useFrame_inFlight random time data calls :
  (∀ k, 0 <= random k < 1)%R → Forall inFlight data →
  Forall inFlight (BalloonInstances.useFrame random time data calls).1.1.
Proof.
  intros Hr Hall. revert calls. induction Hall as [|d rest Hd Hall IH]; intros calls;
    [constructor|].
  rewrite useFrame_cons. cbv zeta. cbn [fst snd].
  constructor; [apply (moveBalloon_spec random time d calls Hr), Hd | apply IH].
Qed.

Lemma useFrame_inBox random time data calls :
  (∀ k, 0 <= random k < 1)%R → Forall inBox data →
  Forall inBox (BalloonInstances.useFrame random time data calls).1.1.
Proof.
  intros Hr Hall. revert calls. induction Hall as [|d rest Hd Hall IH]; intros calls;
    [constructor|].
  rewrite useFrame_cons. cbv zeta. cbn [fst snd].
  constructor; [apply (moveBalloon_spec random time d calls Hr), Hd | apply IH].
Qed.

(** One frame of the celebration: every balloon rises by its speed, or
    restarts at a height in [-30, -20] and a new x in [-20, 20] when the
    rise would take it above 25; its depth, speed, wobble and colour stay;
    it is drawn at its own height and depth, with the wobble
    sin(time * wobbleSpeed + wobbleOffset) * 0.5 added to its x, at scale
    0.7 in its own colour; and balloons in the box stay in the box. *)
Theorem balloons_rise_and_restart (random : Random) (time : R) (data : list Balloon)
    (calls : nat) :
  (∀ k, 0 <= random k < 1)%R →
  let data' := (BalloonInstances.useFrame random time data calls).1.1 in
  let shown := (BalloonInstances.useFrame random time data calls).2 in
  Forall2 flies data data' ∧ Forall2 (shows time) data' shown ∧
  (Forall inBox data → Forall inBox data').
Proof.
  intros Hr data' shown.
  split; [apply useFrame_flies, Hr|]. split; [|apply useFrame_inBox, Hr].
  subst data' shown. revert calls. induction data as [|d rest IH]; intros calls;
    [constructor|].
  rewrite useFrame_cons. cbv zeta. cbn [fst snd].
  constructor; [apply (moveBalloon_spec random time d calls Hr) | apply IH].
Qed.

Lemma useFrames_cons random time times data calls :
  BalloonInstances.useFrames random (time :: times) data calls =
  BalloonInstances.useFrames random times
    (BalloonInstances.useFrame random time data calls).1.1
    (BalloonInstances.useFrame random time data calls).1.2.
Proof.
  cbn [BalloonInstances.useFrames].
  destruct (BalloonInstances.useFrame random time data calls) as [[data' calls'] shown].
  reflexivity.
Qed.

Lemma flies_fixedPart data data' :
  Forall2 flies data data' → fixedPart <$> data' = fixedPart <$> data.
Proof.
  induction 1 as [|d d' data data' [Hd _] _ IH]; [reflexivity|].
  rewrite !fmap_cons, Hd, IH. reflexivity.
Qed.

Lemma useFrames_spec random times data calls :
  (∀ k, 0 <= random k < 1)%R → Forall inFlight data →
  Forall inFlight (BalloonInstances.useFrames random times data calls).1 ∧
  fixedPart <$> (BalloonInstances.useFrames random times data calls).1 = fixedPart <$> data.
Proof.
  intros Hr. revert data calls. induction times as [|time times IH]; intros data calls Hall.
  - split; [exact Hall|reflexivity].
  - rewrite useFrames_cons.
    pose proof (useFrame_flies random time data calls Hr) as Hf.
    destruct (IH _ (BalloonInstances.useFrame random time data calls).1.2
                (useFrame_inFlight random time data calls Hr Hall)) as [H1 H2].
    split; [exact H1|]. rewrite H2. apply flies_fixedPart, Hf.
Qed.

Lemma makeData_inFlight random calls :
  (∀ k, 0 <= random k < 1)%R → Forall inFlight (makeData random calls).1.
Proof.
  intros Hr. apply Forall_lookup. intros i d H.
  destruct (makeBalloons_spec random count calls) as (_ & _ & Hi).
  apply Hi in H. subst d.
  destruct (makeBalloon_bounds random (calls + 8 * i) Hr) as (Hx & Hy & Hz & Hs & _).
  unfold inFlight. repeat split; lra.
Qed.

Lemma useFrames_inBox random times data calls :
  (∀ k, 0 <= random k < 1)%R → Forall inBox data →
  Forall inBox (BalloonInstances.useFrames random times data calls).1.
Proof.
  intros Hr. revert data calls. induction times as [|time times IH]; intros data calls Hall;
    [exact Hall|].
  rewrite useFrames_cons. apply IH, useFrame_inBox; assumption.
Qed.

Lemma useFrames_fixedPart random times data calls :
  (∀ k, 0 <= random k < 1)%R →
  fixedPart <$> (BalloonInstances.useFrames random times data calls).1 = fixedPart <$> data.
Proof.
  intros Hr. revert data calls. induction times as [|time times IH]; intros data calls;
    [reflexivity|].
  rewrite useFrames_cons, IH. apply flies_fixedPart, useFrame_flies, Hr.
Qed.

Lemma makeData_inBox random calls :
  (∀ k, 0 <= random k < 1)%R → Forall inBox (makeData random calls).1.
Proof.
  intros Hr. apply Forall_lookup. intros i d H.
  destruct (makeBalloons_spec random count calls) as (_ & _ & Hi).
  apply Hi in H. subst d.
  destruct (makeBalloon_bounds random (calls + 8 * i) Hr) as (Hx & Hy & Hz & Hs & _).
  unfold inBox. repeat split; lra.
Qed.

(** Through any number of frames the 150 balloons stay in the box
    x in [-20, 20], y in [-50, 25], z in [-10, 10], each with the depth,
    speed, wobble and colour it was created with. *)
Theorem balloons_stay_in_box (random : Random) (calls : nat) (times : list R) :
  (∀ k, 0 <= random k < 1)%R →
  let created := makeData random calls in
  let data := (BalloonInstances.useFrames random times created.1 created.2).1 in
  length data = 150 ∧ Forall inBox data ∧ fixedPart <$> data = fixedPart <$> created.1.
Proof.
  intros Hr created data.
  pose proof (useFrames_inBox random times created.1 created.2 Hr (makeData_inBox _ _ Hr))
    as H1.
  pose proof (useFrames_fixedPart random times created.1 created.2 Hr) as H2.
  split; [|split; [exact H1 | exact H2]].
  unfold data. rewrite <- (length_fmap fixedPart), H2, length_fmap.
  exact (proj1 (proj2 (makeBalloons_spec random count calls))).
Qed.

Lemma rises_or_restarts random times data calls i d :
  (∀ k, 0 <= random k < 1)%R → data !! i = Some d →
  restartsDuring random times data calls i ∨
  ∃ d', (BalloonInstances.useFrames random times data calls).1 !! i = Some d' ∧
        speed d' = speed d ∧
        vy (position d') = (vy (position d) + INR (length times) * speed d)%R.
Proof.
  intros Hr. revert data calls d. induction times as [|time times IH]; intros data calls d Hd.
  - right. exists d. split; [exact Hd|]. split; [reflexivity|]. simpl. lra.
  - destruct (decide (vy (position d) + speed d > 25)%R) as [Hre|Hre].
    { left. left. exists d. split; [exact Hd|exact Hre]. }
    pose proof (useFrame_flies random time data calls Hr) as Hf.
    destruct (Forall2_lookup_l _ _ _ _ _ Hf Hd) as (d1 & Hd1 & Hfix & Hmove).
    destruct Hmove as [(_ & Hy & _)|(Hre' & _)]; [|contradiction].
    destruct (IH _ (BalloonInstances.useFrame random time data calls).1.2 d1 Hd1)
      as [Hrest|(d' & Hd' & Hs & Hy')].
    + left. right. exact Hrest.
    + right. exists d'. rewrite useFrames_cons. split; [exact Hd'|].
      assert (Hsp : speed d1 = speed d) by (unfold fixedPart in Hfix; congruence).
      split; [congruence|]. rewrite Hy', Hy, Hsp.
      change (length (time :: times)) with (S (length times)). rewrite S_INR. lra.
Qed.

(** The celebration keeps going: a balloon in the box restarts at least
    once in any 375 consecutive frames. *)
Theorem balloons_keep_coming (random : Random) (times : list R) (data : list Balloon)
    (calls i : nat) :
  (∀ k, 0 <= random k < 1)%R → Forall inFlight data → i < length data →
  375 ≤ length times →
  restartsDuring random times data calls i.
Proof.
  intros Hr Hall Hi Hlen.
  destruct (lookup_lt_is_Some_2 data i Hi) as [d Hd].
  destruct (rises_or_restarts random times data calls i d Hr Hd)
    as [H|(d' & Hd' & Hs & Hy)]; [exact H|exfalso].
  destruct (useFrames_spec random times data calls Hr Hall) as [Hbox _].
  pose proof (Forall_lookup_1 _ _ _ _ Hbox Hd') as (_ & [_ Htop] & _).
  pose proof (Forall_lookup_1 _ _ _ _ Hall Hd) as (_ & [Hbottom _] & _ & [Hslow _]).
  apply le_INR in Hlen.
  assert (H375 : INR 375 = 375%R) by (rewrite INR_IZR_INZ; reflexivity).
  rewrite H375 in Hlen. nra.
Qed.

Lemma balloons_rise_and_restart_witness :
  Forall2 flies (makeData halves 0).1
    (BalloonInstances.useFrame halves 1 (makeData halves 0).1 1200).1.1.
Proof.
  exact (proj1 (balloons_rise_and_restart halves 1 (makeData halves 0).1 1200 halves_unit)).
Defined.

Lemma balloons_stay_in_box_witness :
  length (BalloonInstances.useFrames halves [0%R; 1%R]
            (makeData halves 0).1 (makeData halves 0).2).1 = 150 ∧
  Forall inBox (BalloonInstances.useFrames halves [0%R; 1%R]
                  (makeData halves 0).1 (makeData halves 0).2).1.
Proof.
  split.
  - exact (proj1 (balloons_stay_in_box halves 0 [0%R; 1%R] halves_unit)).
  - exact (proj1 (proj2 (balloons_stay_in_box halves 0 [0%R; 1%R] halves_unit))).
Defined.

Lemma balloons_keep_coming_witness :
  restartsDuring halves (replicate 375 0%R) (makeData halves 0).1 1200 0.
Proof.
  refine (balloons_keep_coming halves (replicate 375 0%R) (makeData halves 0).1 1200 0
            halves_unit (makeData_inFlight halves 0 halves_unit) _ _).
  - unfold makeData. rewrite (proj1 (proj2 (makeBalloons_spec halves count 0))).
    unfold count. lia.
  - rewrite length_replicate. lia.
Defined.
